(** * Node_JS_Advance: the admission middlewares and the token routes of
    [index.js], embedded in Rocq.

    The file follows [src/index.js]:
    - [hitTracker] (line 48) is a plain JavaScript object used as a map from
      customer names to arrays of timestamps.  Its own properties are a
      [gmap string (list Z)]; reads that miss an own property fall through to
      [Object.prototype], as they do in JavaScript.
    - [rateLimiterMiddleware] (lines 49-78) and [timeRestrictionMiddleware]
      (lines 81-95) are functions from the request data and the clock to an
      [outcome]: [Next] (the call [next()]), [Json status message] (the call
      [res.status(status).json({message})]) or [Throw] (an uncaught
      exception).
    - [generateTokens] (lines 29-33), [authenticate] (lines 36-45) and the
      [/auth/refresh] handler (lines 137-147) are written over a model of the
      two [jsonwebtoken] entry points they call.

    Timestamps are the integer millisecond counts that [Date.now()] returns,
    modelled as [Z]. *)

From stdpp Require Import gmap strings list fin_maps finite.
From Stdlib Require Import ZArith Ascii Sorted.

Local Open Scope string_scope.

(** ** JavaScript values that reach the middlewares *)

Module JS.

(** The value of [req.body.customer_name]: the field may be absent
    ([undefined]) or hold a JSON null, boolean or string.  (JSON numbers,
    arrays and objects are left out: their conversion to a property key
    needs number formatting, which no statement below depends on.) *)
Inductive value :=
| JUndefined
| JNull
| JBoolean (b : bool)
| JString (s : string).

(** [hitTracker[customer_name]] converts the subscript to a property key. *)
Definition ToPropertyKey (v : value) : string :=
  match v with
  | JUndefined => "undefined"
  | JNull => "null"
  | JBoolean true => "true"
  | JBoolean false => "false"
  | JString s => s
  end.

(** What a property read on [hitTracker] can yield. *)
Inductive prop :=
| PUndefined                  (* no such property on the object or its prototype *)
| PArray (hits : list Z)      (* an own property: an array of timestamps *)
| PFunction (arity : nat)     (* a built-in function inherited from Object.prototype *)
| PObject.                    (* Object.prototype itself (the __proto__ accessor) *)

(** The properties of [Object.prototype]; for the functions, the value of
    their [length] property.  None of them is enumerable. *)
Definition ObjectPrototype : list (string * prop) :=
  [ ("constructor", PFunction 1);
    ("__defineGetter__", PFunction 2);
    ("__defineSetter__", PFunction 2);
    ("hasOwnProperty", PFunction 1);
    ("__lookupGetter__", PFunction 1);
    ("__lookupSetter__", PFunction 1);
    ("isPrototypeOf", PFunction 1);
    ("propertyIsEnumerable", PFunction 1);
    ("toString", PFunction 0);
    ("valueOf", PFunction 0);
    ("__proto__", PObject);
    ("toLocaleString", PFunction 0) ].

Fixpoint assoc (k : string) (l : list (string * prop)) : option prop :=
  match l with
  | [] => None
  | (k', p) :: l' => if decide (k = k') then Some p else assoc k l'
  end.

(** [hitTracker[k]] as an r-value: the own property if there is one, else
    the inherited one, else [undefined]. *)
Definition Get (o : gmap string (list Z)) (k : string) : prop :=
  match o !! k with
  | Some hits => PArray hits
  | None => default PUndefined (assoc k ObjectPrototype)
  end.

(** ToBoolean: every object (arrays and functions included) is truthy. *)
Definition truthy (p : prop) : bool :=
  match p with
  | PUndefined => false
  | _ => true
  end.

(** [p.length >= n]; a missing [length] is [undefined], and
    [undefined >= n] is false. *)
Definition length_ge (p : prop) (n : nat) : bool :=
  match p with
  | PArray hits => bool_decide (n ≤ length hits)%nat
  | PFunction arity => bool_decide (n ≤ arity)%nat
  | PObject | PUndefined => false
  end.

(** [Object.keys(o)] and the keys visited by [for (const name in o)]: the
    own enumerable properties (nothing inherited is enumerable).  The
    order of the keys plays no role below. *)
Definition keys (o : gmap string (list Z)) : list string := (map_to_list o).*1.

End JS.

(** ** The hit table and its sweep (lines 53-57) *)

Module Tracker.
Import JS.

(** The filter callback of line 55, [timestamp => now - timestamp <= horizon]. *)
Definition prune (now horizon : Z) (hits : list Z) : list Z :=
  filter (λ timestamp, (now - timestamp ≤ horizon)%Z) hits.

(** The body of the [for ... in] loop for one key [name]:
    [hitTracker[name] = hitTracker[name].filter(...)] and then
    [if (hitTracker[name].length === 0) delete hitTracker[name]]. *)
Definition sweep_entry (now horizon : Z)
    (hitTracker : gmap string (list Z)) (name : string) : gmap string (list Z) :=
  match hitTracker !! name with
  | None => hitTracker
  | Some hits =>
      let hitTracker1 := <[name := prune now horizon hits]> hitTracker in
      if decide (length (hitTracker1 !!! name) = 0)
      then delete name hitTracker1
      else hitTracker1
  end.

(** The loop over a given list of keys. *)
Definition sweep_keys (now horizon : Z)
    (names : list string) (hitTracker : gmap string (list Z)) : gmap string (list Z) :=
  foldl (sweep_entry now horizon) hitTracker names.

(** [sweepAll]: the whole loop of lines 54-57. *)
Definition sweepAll (now horizon : Z) (hitTracker : gmap string (list Z)) :
    gmap string (list Z) :=
  sweep_keys now horizon (keys hitTracker) hitTracker.

(** What the loop does to a single entry, as a partial function: the
    pruned array, or nothing when pruning empties it. *)
Definition prune_entry (now horizon : Z) (hits : list Z) : option (list Z) :=
  match prune now horizon hits with
  | [] => None
  | hits' => Some hits'
  end.

(** The number of timestamps [t] of a sequence with [now - t ≤ horizon],
    counted one by one (the reading of [countRecent] in words). *)
Fixpoint count_within (now horizon : Z) (hits : list Z) : nat :=
  match hits with
  | [] => 0
  | t :: hits' =>
      (if decide (now - t ≤ horizon)%Z then 1 else 0) + count_within now horizon hits'
  end.

End Tracker.

(** ** What a middleware or handler does with the request *)

Inductive outcome :=
| Next                                        (* next() *)
| Json (status : Z) (message : string)        (* res.status(status).json({ message }) *)
| Throw (error : string).                     (* an exception leaves the function *)

(** The reason codes of the admission decisions, as the responses that
    carry them. *)
Definition GLOBAL_BURST_EXCEEDED : outcome :=
  Json 429 "Maximum limit exceeded (2 hits per 5 minutes)".
Definition IDENTITY_COOLDOWN : outcome :=
  Json 429 "Maximum limit exceeded (1 hit per 2 minutes)".
Definition BLACKOUT_DAY : outcome :=
  Json 403 "Please do not use this API on Monday".
Definition BLACKOUT_HOURS : outcome :=
  Json 403 "Restricted time: Please try after 3pm".

(** ** Policy A: [rateLimiterMiddleware] (lines 49-78) *)

Module RateLimiter.
Import JS Tracker.

(** [5 * 60 * 1000], the only horizon in the source (line 55). *)
Definition retentionHorizon : Z := 5 * 60 * 1000.

(** Line 60: [Object.keys(hitTracker).filter(name => hitTracker[name].length >= 2)]. *)
Definition customerHits (hitTracker : gmap string (list Z)) : list string :=
  filter (λ name, 2 ≤ length (hitTracker !!! name))%nat (keys hitTracker).

(** Lines 65-77, on the swept table. *)
Definition checkCustomer (customer_name : value) (now : Z)
    (hitTracker : gmap string (list Z)) : gmap string (list Z) * outcome :=
  let key := ToPropertyKey customer_name in
  if truthy (Get hitTracker key) && length_ge (Get hitTracker key) 1
  then (hitTracker, IDENTITY_COOLDOWN)
  else
    let hitTracker1 :=
      if negb (truthy (Get hitTracker key)) then <[key := []]> hitTracker
      else hitTracker in
    match Get hitTracker1 key with
    | PArray hits => (<[key := (hits ++ [now])%list]> hitTracker1, Next)
    | _ => (hitTracker1,
            Throw "TypeError: hitTracker[customer_name].push is not a function")
    end.

(** The middleware: the table before the call and the request give the
    table after the call and the outcome. *)
Definition rateLimiterMiddleware (customer_name : value) (now : Z)
    (hitTracker : gmap string (list Z)) : gmap string (list Z) * outcome :=
  let hitTracker := sweepAll now retentionHorizon hitTracker in
  if decide (2 ≤ length (customerHits hitTracker))%nat
  then (hitTracker, GLOBAL_BURST_EXCEEDED)
  else checkCustomer customer_name now hitTracker.

End RateLimiter.

(** ** Policy B: [timeRestrictionMiddleware] (lines 81-95) *)

Module Clock.

(** A [Date] object: its time value (milliseconds since the epoch, UTC)
    and the offset of local time at that instant, in milliseconds. *)
Record Date := { timeValue : Z; LocalTZA : Z }.

Definition msPerDay : Z := 86400000.
Definition msPerHour : Z := 3600000.

Definition LocalTime (d : Date) : Z := timeValue d + LocalTZA d.

(** [Date.prototype.getDay]: WeekDay(t) = (Day(t) + 4) modulo 7, Sunday
    being 0 (1 January 1970 was a Thursday). *)
Definition getDay (d : Date) : Z := ((LocalTime d `div` msPerDay) + 4) `mod` 7.

(** [Date.prototype.getHours]: HourFromTime(t) = floor(t / msPerHour) modulo 24. *)
Definition getHours (d : Date) : Z := (LocalTime d `div` msPerHour) `mod` 24.

End Clock.

Module TimeRestriction.
Import Clock.

Definition timeRestrictionMiddleware (now : Date) : outcome :=
  let dayOfWeek := getDay now in
  let hours := getHours now in
  if decide (dayOfWeek = 1)%Z then BLACKOUT_DAY
  else if decide (8 ≤ hours ∧ hours < 12)%Z then BLACKOUT_HOURS
  else Next.

End TimeRestriction.

(** ** Credentials: [generateTokens], [authenticate] and [/auth/refresh] *)

Module Tokens.

Inductive kind := Access | Refresh.

Inductive VerifyError := EXPIRED | INVALID_SIGNATURE.

(** The claims payload: the [userId] given by the caller, and the two
    dates the signer adds, as seconds on the signer's clock. *)
Record claims := { userId : string; issuedAt : Z; expiresAt : Z }.

#[global] Instance claims_eq_dec : EqDecision claims.
Proof. solve_decision. Defined.

(** A credential: the claims and the signature over them. *)
Record token (signature : Type) := { payload : claims; sig : signature }.
Arguments payload {signature} _.
Arguments sig {signature} _.

Record tokensPair (signature : Type) :=
  { accessToken : token signature; refreshToken : token signature }.
Arguments accessToken {signature} _.
Arguments refreshToken {signature} _.

(** The [expiresIn] options of lines 30-31, in seconds: ['30m'] and ['1y']
    (a year of 365.25 days). *)
Definition ttl (k : kind) : Z :=
  match k with
  | Access => 30 * 60
  | Refresh => 31557600
  end.

Section signer.
Context {signature : Type} `{EqDecision signature}.

(** The keyed signature function of the signer. *)
Variable mac : string → claims → signature.
(** [process.env.ACCESS_TOKEN_SECRET] and [process.env.REFRESH_TOKEN_SECRET]. *)
Variables ACCESS_TOKEN_SECRET REFRESH_TOKEN_SECRET : string.

Definition secret (k : kind) : string :=
  match k with
  | Access => ACCESS_TOKEN_SECRET
  | Refresh => REFRESH_TOKEN_SECRET
  end.

(** Modelled from the spec: [jwt.sign] of the jsonwebtoken package, whose
    code is not under src/.  The claims get [issuedAt = now] and
    [expiresAt = now + expiresIn] and are signed with the given secret. *)
Definition jwt_sign (subject : string) (secretOrKey : string) (expiresIn : Z)
    (now : Z) : token signature :=
  let c := {| userId := subject; issuedAt := now; expiresAt := now + expiresIn |} in
  {| payload := c; sig := mac secretOrKey c |}.

(** Modelled from the spec: [jwt.verify] of the jsonwebtoken package, whose
    code is not under src/.  It fails with INVALID_SIGNATURE if the
    signature is not the one recomputed over the claims with the given
    secret, fails with EXPIRED if [now > expiresAt], and otherwise returns
    the claims.  The signature is examined first: a credential signed with
    another secret is answered INVALID_SIGNATURE at every instant, also
    after its expiry. *)
Definition jwt_verify (t : token signature) (secretOrKey : string) (now : Z) :
    VerifyError + claims :=
  if decide (sig t = mac secretOrKey (payload t)) then
    if decide (now > expiresAt (payload t))%Z then inl EXPIRED
    else inr (payload t)
  else inl INVALID_SIGNATURE.

(** [sign(kind, subject, now)] and [verify(kind, token, now)]: the two
    calls with the secret and lifetime bound to the kind, as lines 30,
    31, 40 and 141 make them. *)
Definition sign (k : kind) (subject : string) (now : Z) : token signature :=
  jwt_sign subject (secret k) (ttl k) now.

Definition verify (k : kind) (t : token signature) (now : Z) : VerifyError + claims :=
  jwt_verify t (secret k) now.

(** Lines 29-33, called with the payload [{ userId: subject }]. *)
Definition generateTokens (subject : string) (now : Z) : tokensPair signature :=
  {| accessToken := jwt_sign subject ACCESS_TOKEN_SECRET (ttl Access) now;
     refreshToken := jwt_sign subject REFRESH_TOKEN_SECRET (ttl Refresh) now |}.

(** Lines 36-45.  [bearer] is the second word of the Authorization
    header, if any; on success the decoded claims become [req.user]. *)
Definition authenticate (bearer : option (token signature)) (now : Z) :
    outcome * option claims :=
  match bearer with
  | None => (Json 401 "Unauthorized", None)
  | Some t =>
      match jwt_verify t ACCESS_TOKEN_SECRET now with
      | inl err => (Json 403 "Forbidden", None)
      | inr decoded => (Next, Some decoded)
      end
  end.

(** Lines 137-147: the reply is an error response or the new pair
    ([res.json(newTokens)]). *)
Definition authRefresh (body_refreshToken : option (token signature)) (now : Z) :
    outcome + tokensPair signature :=
  match body_refreshToken with
  | None => inl (Json 401 "Unauthorized")
  | Some t =>
      match jwt_verify t REFRESH_TOKEN_SECRET now with
      | inl err => inl (Json 403 "Forbidden")
      | inr decoded => inr (generateTokens (userId decoded) now)
      end
  end.

End signer.

End Tokens.

(** ** Concrete tables, instants and signatures used in the examples *)

Definition tableAB : gmap string (list Z) :=
  {[ "A" := [1000%Z; 2000%Z]; "B" := [1500%Z; 2500%Z] ]}.

(** Monday 1 January 2024, 15:00 UTC; Tuesday 2 January 2024, 09:00 and
    15:00 UTC, read in a UTC time zone. *)
Definition monday15 : Clock.Date :=
  {| Clock.timeValue := 1704067200000 + 15 * 3600000; Clock.LocalTZA := 0 |}.
Definition tuesday09 : Clock.Date :=
  {| Clock.timeValue := 1704153600000 + 9 * 3600000; Clock.LocalTZA := 0 |}.
Definition tuesday15 : Clock.Date :=
  {| Clock.timeValue := 1704153600000 + 15 * 3600000; Clock.LocalTZA := 0 |}.

(** A signature function for the concrete instances: the signature is the
    secret paired with the claims, so distinct secrets give distinct
    signatures. *)
Definition pairMac (secretOrKey : string) (c : Tokens.claims) : string * Tokens.claims :=
  (secretOrKey, c).

(** Outcomes can be compared. *)
#[global] Instance outcome_eq_dec : EqDecision outcome.
Proof. solve_decision. Defined.

(** ** Successive requests through [rateLimiterMiddleware] *)

Module Serve.
Import JS RateLimiter.

(** The middleware called once per request, in order, on the one table of
    line 48.  A request is its [customer_name] and the value [Date.now()]
    has when the call reads it. *)
Fixpoint serve (requests : list (value * Z)) (hitTracker : gmap string (list Z)) :
    gmap string (list Z) * list outcome :=
  match requests with
  | [] => (hitTracker, [])
  | (customer_name, now) :: requests' =>
      let served := rateLimiterMiddleware customer_name now hitTracker in
      let rest := serve requests' served.1 in
      (rest.1, served.2 :: rest.2)
  end.

(** A reference limiter, to compare the middleware with: it keeps, per
    property key, the instant of the last admission, and refuses a request
    made within the retention horizon of that instant. *)
Definition reference_step (last : gmap string Z) (customer_name : value) (now : Z) :
    gmap string Z * outcome :=
  let key := ToPropertyKey customer_name in
  match last !! key with
  | Some t =>
      if decide (now - t ≤ retentionHorizon)%Z then (last, IDENTITY_COOLDOWN)
      else (<[key := now]> last, Next)
  | None => (<[key := now]> last, Next)
  end.

Fixpoint reference_serve (requests : list (value * Z)) (last : gmap string Z) :
    gmap string Z * list outcome :=
  match requests with
  | [] => (last, [])
  | (customer_name, now) :: requests' =>
      let served := reference_step last customer_name now in
      let rest := reference_serve requests' served.1 in
      (rest.1, served.2 :: rest.2)
  end.

(** How the table of the middleware and the table of the reference limiter
    correspond after a call at instant [T]: a key of the reference table is
    in the middleware table with that single instant, or has been swept
    away, its instant being older than the retention horizon. *)
Definition related (T : Z) (hitTracker : gmap string (list Z)) (last : gmap string Z) : Prop :=
  ∀ k, match last !! k with
       | None => hitTracker !! k = None
       | Some t =>
           hitTracker !! k = Some [t]
           ∨ (hitTracker !! k = None ∧ (T - t > retentionHorizon)%Z)
       end.

End Serve.

(** ** [calculateAge] (lines 98-109) and the age check of [/db-save] *)

Module Age.

(** What [calculateAge] reads of a [Date]: the local calendar fields
    returned by [getFullYear()], [getMonth()] (0-11) and [getDate()]. *)
Record CalendarDate := { getFullYear : Z; getMonth : Z; getDate : Z }.

(** [today] is [new Date()], always a valid date.  [birthDate] is
    [new Date(dob)]: [None] stands for an Invalid Date, all of whose
    getters return [NaN].  The result [None] is [NaN]: every subtraction
    with [NaN] is [NaN], and every comparison with [NaN] is false, so the
    decrement of line 105 is not reached (and would leave [NaN] anyway). *)
Definition calculateAge (today : CalendarDate) (birthDate : option CalendarDate) :
    option Z :=
  match birthDate with
  | None => None
  | Some birthDate =>
      let age := (getFullYear today - getFullYear birthDate)%Z in
      let monthDiff := (getMonth today - getMonth birthDate)%Z in
      if decide (monthDiff < 0 ∨ (monthDiff = 0 ∧ getDate today < getDate birthDate))%Z
      then Some (age - 1)%Z
      else Some age
  end.

(** Lines 155-158 of the [/db-save] handler: [Some response] when the
    handler answers at once, [None] when it goes on to [Product.create].
    [age <= 15] is false for [NaN]. *)
Definition ageCheck (today : CalendarDate) (birthDate : option CalendarDate) :
    option outcome :=
  match calculateAge today birthDate with
  | Some age =>
      if decide (age ≤ 15)%Z then Some (Json 400 "Age must be greater than 15.")
      else None
  | None => None
  end.

(** Calendar dates in chronological order (year, then month, then day). *)
Definition before_or_on (d1 d2 : CalendarDate) : Prop :=
  (getFullYear d1 < getFullYear d2 ∨
   (getFullYear d1 = getFullYear d2 ∧
    (getMonth d1 < getMonth d2 ∨
     (getMonth d1 = getMonth d2 ∧ getDate d1 ≤ getDate d2))))%Z.

(** The [n]-th anniversary of a date: same month and day, [n] years on. *)
Definition anniversary (n : Z) (d : CalendarDate) : CalendarDate :=
  {| getFullYear := getFullYear d + n; getMonth := getMonth d; getDate := getDate d |}.

End Age.

(** ** The [/db-save] route (line 150) and the error middleware (lines 231-237) *)

Module Routes.
Import JS RateLimiter Age.

(** Lines 231-237: what Express answers when a middleware throws an error
    with the given message. *)
Definition errorHandler (message : string) : outcome :=
  if decide (message = "Maximum limit exceeded (1 hit per 2 minutes)"
             ∨ message = "Maximum limit exceeded (2 hits per 5 minutes)")
  then Json 429 message
  else Json 500 "Internal Server Error".

(** How a request to [/db-save] ends: with a response, or in the call of
    [Product.create] (whose answer is the store's). *)
Inductive ending :=
| Responded (status : Z) (message : string)
| ReachedCreate.

(** The response that a step of the route ends with.  An exception is
    handed by Express to the error middleware ([Throw] carries the name and
    the message of the error, which is neither of the two messages that
    line 232 compares it with). *)
Definition respond (o : outcome) : ending :=
  match o with
  | Json status message => Responded status message
  | Throw error =>
      match errorHandler error with
      | Json status message => Responded status message
      | _ => ReachedCreate
      end
  | Next => ReachedCreate
  end.

Section route.
Context {signature : Type} `{EqDecision signature}.
Variable mac : string → Tokens.claims → signature.
Variable ACCESS_TOKEN_SECRET : string.

(** [app.post('/db-save', authenticate, rateLimiterMiddleware, handler)]:
    each function runs only if the one before called [next()].  The three
    read the clock on their own: [jwtNow] is the signer's clock in
    [authenticate], [now] is [Date.now()] in the rate limiter, [today] is
    [new Date()] in [calculateAge]. *)
Definition dbSave (bearer : option (Tokens.token signature)) (jwtNow : Z)
    (customer_name : value) (now : Z)
    (today : CalendarDate) (birthDate : option CalendarDate)
    (hitTracker : gmap string (list Z)) : gmap string (list Z) * ending :=
  match Tokens.authenticate mac ACCESS_TOKEN_SECRET bearer jwtNow with
  | (Next, _) =>
      match rateLimiterMiddleware customer_name now hitTracker with
      | (hitTracker', Next) =>
          match ageCheck today birthDate with
          | Some response => (hitTracker', respond response)
          | None => (hitTracker', ReachedCreate)
          end
      | (hitTracker', refused) => (hitTracker', respond refused)
      end
  | (refused, _) => (hitTracker, respond refused)
  end.

End route.

End Routes.

(** ** The bearer token of the [Authorization] header (lines 37-38) *)

Module Bearer.

(** [s.split(sep)] for a one-character separator: the pieces between
    the separators, empty pieces included. *)
Fixpoint split (sep : Ascii.ascii) (s : string) : list string :=
  match s with
  | EmptyString => [EmptyString]
  | String c s' =>
      if decide (c = sep) then EmptyString :: split sep s'
      else match split sep s' with
           | piece :: pieces => String c piece :: pieces
           | [] => [String c EmptyString]
           end
  end.

(** Line 37, [req.headers.authorization?.split(' ')[1]]: [None] is
    [undefined] (no header, or no second piece). *)
Definition headerToken (authorization : option string) : option string :=
  match authorization with
  | None => None
  | Some header => split " "%char header !! 1%nat
  end.

(** Line 38: [!token] holds for [undefined] and for the empty string. *)
Definition falsy (token : option string) : bool :=
  match token with
  | None => true
  | Some EmptyString => true
  | Some _ => false
  end.

(** Lines 37-38: the 401 response, or the token handed to [jwt.verify]. *)
Definition bearerOf (authorization : option string) : outcome + string :=
  match headerToken authorization with
  | Some token => if falsy (Some token) then inl (Json 401 "Unauthorized") else inr token
  | None => inl (Json 401 "Unauthorized")
  end.

(** A string without the given character. *)
Fixpoint free_of (sep : Ascii.ascii) (s : string) : Prop :=
  match s with
  | EmptyString => True
  | String c s' => c ≠ sep ∧ free_of sep s'
  end.

End Bearer.

(** ** Refreshing again and again *)

Module Rotation.

Section rotation.
Context {signature : Type} `{EqDecision signature}.
Variable mac : string → Tokens.claims → signature.
Variables ACCESS_TOKEN_SECRET REFRESH_TOKEN_SECRET : string.

(** A client that calls [/auth/refresh] at each of the given instants, each
    time with the refresh token of the previous answer: the last pair
    received, or [None] as soon as a call is refused. *)
Fixpoint refreshAll (instants : list Z) (pair : Tokens.tokensPair signature) :
    option (Tokens.tokensPair signature) :=
  match instants with
  | [] => Some pair
  | now :: instants' =>
      match Tokens.authRefresh mac ACCESS_TOKEN_SECRET REFRESH_TOKEN_SECRET
              (Some (Tokens.refreshToken pair)) now with
      | inr pair' => refreshAll instants' pair'
      | inl _ => None
      end
  end.

(** Each instant is less than a refresh lifetime after the one before. *)
Fixpoint in_time (previous : Z) (instants : list Z) : Prop :=
  match instants with
  | [] => True
  | now :: instants' =>
      (now < previous + Tokens.ttl Tokens.Refresh)%Z ∧ in_time now instants'
  end.

End rotation.

End Rotation.

(** ** More concrete inputs used in the examples *)

(** Customer A at 0 ms, B at 1 s, A again at 100 s and at 400 s. *)
Definition requestsABA : list (JS.value * Z) :=
  [ (JS.JString "A", 0%Z); (JS.JString "B", 1000%Z);
    (JS.JString "A", 100000%Z); (JS.JString "A", 400000%Z) ].

(** A request without [customer_name], then one from a customer named
    ["constructor"], then one from a customer named ["undefined"]. *)
Definition requestsOdd : list (JS.value * Z) :=
  [ (JS.JUndefined, 0%Z); (JS.JString "constructor", 1000%Z);
    (JS.JString "undefined", 2000%Z) ].

(** 1 June 2024, and three dates of birth: 1 June 2008, 2 June 2008 and
    31 December 2030. *)
Definition june1_2024 : Age.CalendarDate :=
  {| Age.getFullYear := 2024; Age.getMonth := 5; Age.getDate := 1 |}.
Definition june1_2008 : Age.CalendarDate :=
  {| Age.getFullYear := 2008; Age.getMonth := 5; Age.getDate := 1 |}.

(** The access token issued to ["user-1"] at second 1000 under the
    signature function [pairMac]. *)
Definition bearerUser1 : option (Tokens.token (string * Tokens.claims)) :=
  Some (Tokens.sign pairMac "access-secret" "refresh-secret" Tokens.Access "user-1" 1000).


(** A secret of each length. *)
Fixpoint secretOfLength (n : nat) : string :=
  match n with
  | O => EmptyString
  | S n' => String "a" (secretOfLength n')
  end.

(** Two refresh tokens that [/auth/refresh] refuses at second 40000000
    under [pairMac]: one signed with the refresh secret at second 0 and
    since expired, one carrying the signature of the access secret. *)
Definition expiredRefresh : Tokens.token (string * Tokens.claims) :=
  Tokens.sign pairMac "access-secret" "refresh-secret" Tokens.Refresh "user-1" 0.
Definition forgedRefresh : Tokens.token (string * Tokens.claims) :=
  Tokens.sign pairMac "access-secret" "refresh-secret" Tokens.Access "user-1" 39999000.

(** ** Lemmas on the sweep *)

Section sweep_lemmas.
Import JS Tracker.
Implicit Types (hitTracker : gmap string (list Z)) (hits : list Z).
Variables now horizon : Z.

Lemma prune_idemp hits : prune now horizon (prune now horizon hits) = prune now horizon hits.
Proof.
  unfold prune. induction hits as [|t hits IH]; [done|].
  rewrite filter_cons. case_decide as Ht; [|done].
  rewrite filter_cons, decide_True by done. by rewrite IH.
Qed.

Lemma prune_entry_Some hits hits' :
  prune_entry now horizon hits = Some hits' ↔
  hits' = prune now horizon hits ∧ hits' ≠ [].
Proof.
  unfold prune_entry. destruct (prune now horizon hits) as [|t l]; split.
  - done.
  - by intros [-> ?].
  - by intros [= <-].
  - by intros [-> _].
Qed.

Lemma prune_entry_idemp hits :
  prune_entry now horizon hits ≫= prune_entry now horizon = prune_entry now horizon hits.
Proof.
  destruct (prune_entry now horizon hits) as [hits'|] eqn:E; [|done]. simpl.
  apply prune_entry_Some in E as [-> Hne].
  apply prune_entry_Some. by rewrite prune_idemp.
Qed.

Lemma lookup_sweep_entry hitTracker name k :
  sweep_entry now horizon hitTracker name !! k =
  if decide (k = name) then hitTracker !! k ≫= prune_entry now horizon
  else hitTracker !! k.
Proof.
  unfold sweep_entry.
  destruct (decide (k = name)) as [->|Hk];
    destruct (hitTracker !! name) as [hits|] eqn:E; rewrite ?E; simpl; try done.
  - rewrite lookup_total_insert_eq. unfold prune_entry.
    destruct (prune now horizon hits) eqn:Ep; simpl.
    + by rewrite lookup_delete_eq.
    + by rewrite lookup_insert_eq.
  - case_decide; by rewrite ?lookup_delete_ne, lookup_insert_ne.
Qed.

Lemma lookup_sweep_keys names hitTracker k :
  sweep_keys now horizon names hitTracker !! k =
  if decide (k ∈ names) then hitTracker !! k ≫= prune_entry now horizon
  else hitTracker !! k.
Proof.
  unfold sweep_keys. revert hitTracker.
  induction names as [|name names IH]; intros hitTracker; simpl.
  - destruct (decide (k ∈ [])) as [Hin|_]; [by apply not_elem_of_nil in Hin|done].
  - rewrite IH, lookup_sweep_entry.
    destruct (decide (k = name)) as [->|Hne].
    + destruct (decide (name ∈ name :: names)) as [_|Hn]; [|exfalso; apply Hn; left].
      destruct (decide (name ∈ names)); [|done].
      destruct (hitTracker !! name) as [hits|]; [|done].
      apply prune_entry_idemp.
    + destruct (decide (k ∈ names)), (decide (k ∈ name :: names)) as [Hin|Hnin];
        try done.
      * exfalso; apply Hnin; by right.
      * by apply elem_of_cons in Hin as [?|?].
Qed.

Lemma elem_of_keys hitTracker k : k ∈ keys hitTracker ↔ is_Some (hitTracker !! k).
Proof.
  unfold keys. rewrite list_elem_of_fmap. split.
  - intros [[k' v] [-> Hin]]. apply elem_of_map_to_list in Hin. by exists v.
  - intros [v Hv]. exists (k, v). split; [done|]. by apply elem_of_map_to_list.
Qed.

Lemma NoDup_keys hitTracker : NoDup (keys hitTracker).
Proof. apply NoDup_fst_map_to_list. Qed.

(** The sweep acts on every entry independently. *)
Lemma lookup_sweepAll hitTracker k :
  sweepAll now horizon hitTracker !! k = hitTracker !! k ≫= prune_entry now horizon.
Proof.
  unfold sweepAll. rewrite lookup_sweep_keys.
  case_decide as Hk; [done|].
  rewrite elem_of_keys in Hk. apply eq_None_not_Some in Hk. by rewrite Hk.
Qed.

Lemma sweepAll_omap hitTracker :
  sweepAll now horizon hitTracker = omap (prune_entry now horizon) hitTracker.
Proof. apply map_eq; intros k. by rewrite lookup_sweepAll, lookup_omap. Qed.

Lemma length_prune hits :
  length (prune now horizon hits) = count_within now horizon hits.
Proof.
  unfold prune. induction hits as [|t hits IH]; [done|].
  rewrite filter_cons. simpl. case_decide; simpl; by rewrite IH.
Qed.

End sweep_lemmas.

(** ** Properties of the sweep *)

Section sweep_properties.
Import JS Tracker.
Implicit Types (hitTracker : gmap string (list Z)) (hits : list Z).

Lemma elem_of_prune now horizon hits t :
  t ∈ prune now horizon hits ↔ t ∈ hits ∧ (now - t ≤ horizon)%Z.
Proof. unfold prune. rewrite list_elem_of_filter. tauto. Qed.

Lemma lookup_total_sweepAll now horizon hitTracker k :
  sweepAll now horizon hitTracker !!! k = prune now horizon (hitTracker !!! k).
Proof.
  rewrite !lookup_total_alt, lookup_sweepAll.
  destruct (hitTracker !! k) as [hits|]; simpl; [|done].
  unfold prune_entry. by destruct (prune now horizon hits).
Qed.

Lemma sweepAll_lookup_Some now horizon hitTracker k hits :
  sweepAll now horizon hitTracker !! k = Some hits →
  hits ≠ [] ∧ ∃ hits0, hitTracker !! k = Some hits0 ∧ hits = prune now horizon hits0.
Proof.
  rewrite lookup_sweepAll.
  destruct (hitTracker !! k) as [hits0|]; simpl; [|done].
  intros [-> Hne]%prune_entry_Some. eauto.
Qed.

End sweep_properties.

(** C5 (window correctness and retention).  For every table, key, instant
    and horizon: after the sweep the sequence stored for the key is exactly
    the sub-sequence of its timestamps [t] with [now - t ≤ horizon], its
    length is the number of such timestamps, every timestamp left anywhere
    in the table is within the horizon, no stored sequence is empty, and a
    key whose sequence is pruned to nothing is no longer in the table. *)
Theorem sweepAll_window_retention (now horizon : Z)
    (hitTracker : gmap string (list Z)) (key : string) :
  let swept := Tracker.sweepAll now horizon hitTracker in
  (∀ t, t ∈ swept !!! key ↔ t ∈ hitTracker !!! key ∧ (now - t ≤ horizon)%Z) ∧
  swept !!! key = Tracker.prune now horizon (hitTracker !!! key) ∧
  length (swept !!! key) = Tracker.count_within now horizon (hitTracker !!! key) ∧
  (∀ k hits, swept !! k = Some hits →
     hits ≠ [] ∧ Forall (λ t, (now - t ≤ horizon)%Z) hits) ∧
  (∀ k, Tracker.prune now horizon (hitTracker !!! k) = [] → swept !! k = None).
Proof.
  intros swept. subst swept. split; [|split; [|split; [|split]]].
  - intros t. by rewrite lookup_total_sweepAll, elem_of_prune.
  - apply lookup_total_sweepAll.
  - by rewrite lookup_total_sweepAll, length_prune.
  - intros k hits (Hne & hits0 & _ & ->)%sweepAll_lookup_Some. split; [done|].
    apply Forall_forall. by intros t [_ ?]%elem_of_prune.
  - intros k Hk. rewrite lookup_sweepAll. rewrite lookup_total_alt in Hk.
    destruct (hitTracker !! k) as [hits|]; simpl in *; [|done].
    unfold Tracker.prune_entry. by rewrite Hk.
Qed.

(** C10 (sweep idempotence).  Sweeping twice with the same instant and
    horizon leaves the table that one sweep leaves. *)
Theorem sweepAll_idempotent (now horizon : Z) (hitTracker : gmap string (list Z)) :
  Tracker.sweepAll now horizon (Tracker.sweepAll now horizon hitTracker) =
  Tracker.sweepAll now horizon hitTracker.
Proof.
  apply map_eq; intros k. rewrite !lookup_sweepAll.
  destruct (hitTracker !! k) as [hits|]; [|done]. apply prune_entry_idemp.
Qed.

Lemma sweepAll_window_retention_witness :
  Tracker.sweepAll 400000 300000 {[ "A" := [50000%Z; 150000%Z]; "B" := [1000%Z] ]} !! "B" = None ∧
  Forall (λ t, (400000 - t ≤ 300000)%Z) [150000%Z].
Proof.
  destruct (sweepAll_window_retention 400000 300000
              {[ "A" := [50000%Z; 150000%Z]; "B" := [1000%Z] ]} "A")
    as (_ & _ & _ & Hkept & Hgone).
  split.
  - apply Hgone. vm_compute. reflexivity.
  - apply (Hkept "A" [150000%Z]). vm_compute. reflexivity.
Defined.

(** ** Properties of Policy A *)

Section rate_limiter_lemmas.
Import JS Tracker RateLimiter.
Implicit Types (hitTracker : gmap string (list Z)) (hits : list Z).

(** Whatever [Object.prototype] holds under a name is a function or the
    prototype object itself. *)
Lemma ObjectPrototype_cases k p :
  assoc k ObjectPrototype = Some p → (∃ arity, p = PFunction arity) ∨ p = PObject.
Proof.
  unfold ObjectPrototype. simpl.
  repeat (case_decide; [intros [= <-]; eauto|]). done.
Qed.

Lemma Get_own hitTracker k hits :
  hitTracker !! k = Some hits → Get hitTracker k = PArray hits.
Proof. unfold Get. by intros ->. Qed.

Lemma Get_inherited hitTracker k :
  hitTracker !! k = None →
  Get hitTracker k = default PUndefined (assoc k ObjectPrototype).
Proof. unfold Get. by intros ->. Qed.

(** The three ways lines 65-77 can end, on a table without empty arrays
    (which is what the sweep leaves). *)
Lemma checkCustomer_cases customer_name now hitTracker :
  (∀ k hits, hitTracker !! k = Some hits → hits ≠ []) →
  let key := ToPropertyKey customer_name in
  checkCustomer customer_name now hitTracker =
  match hitTracker !! key with
  | Some _ => (hitTracker, IDENTITY_COOLDOWN)
  | None =>
      match assoc key ObjectPrototype with
      | None => (<[key := [now]]> hitTracker, Next)
      | Some p =>
          if length_ge p 1 then (hitTracker, IDENTITY_COOLDOWN)
          else (hitTracker,
                Throw "TypeError: hitTracker[customer_name].push is not a function")
      end
  end.
Proof.
  intros Hne key. unfold checkCustomer. fold key.
  destruct (hitTracker !! key) as [hits|] eqn:E.
  - rewrite (Get_own _ _ _ E). apply Hne in E. unfold truthy, length_ge.
    rewrite bool_decide_true; [done|]. destruct hits; simpl; [done|lia].
  - rewrite (Get_inherited _ _ E).
    destruct (assoc key ObjectPrototype) as [p|] eqn:Ep.
    + destruct (ObjectPrototype_cases _ _ Ep) as [[arity ->]| ->];
        cbn [default from_option id truthy length_ge negb andb].
      * case_bool_decide; [done|]. by rewrite (Get_inherited _ _ E), Ep.
      * by rewrite (Get_inherited _ _ E), Ep.
    + cbn [default from_option id truthy length_ge negb andb].
      rewrite (Get_own _ _ []) by apply lookup_insert_eq.
      by rewrite insert_insert_eq.
Qed.

Lemma sweepAll_no_empty now horizon hitTracker k hits :
  sweepAll now horizon hitTracker !! k = Some hits → hits ≠ [].
Proof. by intros [? _]%sweepAll_lookup_Some. Qed.

(** The middleware in one equation: sweep, global rule, then the
    customer's own entry. *)
Lemma rateLimiterMiddleware_cases customer_name now hitTracker :
  let swept := sweepAll now retentionHorizon hitTracker in
  let key := ToPropertyKey customer_name in
  rateLimiterMiddleware customer_name now hitTracker =
  if decide (2 ≤ length (customerHits swept))%nat then (swept, GLOBAL_BURST_EXCEEDED)
  else match swept !! key with
       | Some _ => (swept, IDENTITY_COOLDOWN)
       | None =>
           match assoc key ObjectPrototype with
           | None => (<[key := [now]]> swept, Next)
           | Some p =>
               if length_ge p 1 then (swept, IDENTITY_COOLDOWN)
               else (swept,
                     Throw "TypeError: hitTracker[customer_name].push is not a function")
           end
       end.
Proof.
  intros swept key. unfold rateLimiterMiddleware. fold swept.
  case_decide; [done|].
  apply checkCustomer_cases. intros k hits. apply sweepAll_no_empty.
Qed.

Lemma elem_of_customerHits hitTracker k :
  k ∈ customerHits hitTracker ↔
  ∃ hits, hitTracker !! k = Some hits ∧ (2 ≤ length hits)%nat.
Proof.
  unfold customerHits. rewrite list_elem_of_filter, elem_of_keys.
  rewrite lookup_total_alt. split.
  - intros [Hlen [hits Hk]]. rewrite Hk in Hlen. eauto.
  - intros (hits & Hk & Hlen). rewrite Hk. eauto.
Qed.

Lemma NoDup_customerHits hitTracker : NoDup (customerHits hitTracker).
Proof. apply NoDup_filter, NoDup_keys. Qed.

Lemma NoDup_two_length {A} (l : list A) x y :
  NoDup l → x ∈ l → y ∈ l → x ≠ y → (2 ≤ length l)%nat.
Proof.
  intros Hnd Hx Hy Hxy. destruct l as [|a [|b l]]; simpl; [| |lia].
  - by apply not_elem_of_nil in Hx.
  - apply list_elem_of_singleton in Hx, Hy. congruence.
Qed.

(** Two different customers with two or more retained hits each make the
    global rule fire. *)
Lemma customerHits_two now hitTracker k1 k2 hits1 hits2 :
  k1 ≠ k2 →
  hitTracker !! k1 = Some hits1 → hitTracker !! k2 = Some hits2 →
  (2 ≤ length (prune now retentionHorizon hits1))%nat →
  (2 ≤ length (prune now retentionHorizon hits2))%nat →
  (2 ≤ length (customerHits (sweepAll now retentionHorizon hitTracker)))%nat.
Proof.
  intros Hne H1 H2 Hl1 Hl2.
  assert (∀ k hits, hitTracker !! k = Some hits →
            (2 ≤ length (prune now retentionHorizon hits))%nat →
            k ∈ customerHits (sweepAll now retentionHorizon hitTracker)) as Hin.
  { intros k hits Hk Hl. apply elem_of_customerHits.
    exists (prune now retentionHorizon hits). split; [|done].
    rewrite lookup_sweepAll, Hk. simpl. apply prune_entry_Some. split; [done|].
    intros Hnil. rewrite Hnil in Hl. simpl in Hl. lia. }
  apply (NoDup_two_length _ k1 k2); eauto using NoDup_customerHits.
Qed.

End rate_limiter_lemmas.

Section rate_limiter_tables.
Import JS Tracker RateLimiter.
Implicit Types (hitTracker : gmap string (list Z)) (hits : list Z).

Lemma customerHits_nil hitTracker :
  (∀ k hits, hitTracker !! k = Some hits → (length hits < 2)%nat) →
  customerHits hitTracker = [].
Proof.
  intros Hshort. destruct (customerHits hitTracker) as [|k l] eqn:E; [done|].
  assert (k ∈ customerHits hitTracker) as Hin by (rewrite E; left).
  apply elem_of_customerHits in Hin as (hits & Hk & Hlen).
  apply Hshort in Hk. lia.
Qed.

Lemma sweepAll_singleton_keep now horizon k t0 :
  (now - t0 ≤ horizon)%Z →
  sweepAll now horizon {[ k := [t0] ]} = {[ k := [t0] ]}.
Proof.
  intros Hle. apply map_eq; intros k'. rewrite lookup_sweepAll.
  destruct (decide (k' = k)) as [->|Hne].
  - rewrite lookup_singleton_eq. simpl. unfold prune_entry, prune.
    by rewrite filter_cons, decide_True.
  - by rewrite lookup_singleton_ne.
Qed.

Lemma sweepAll_singleton_drop now horizon k t0 :
  ¬ (now - t0 ≤ horizon)%Z →
  sweepAll now horizon {[ k := [t0] ]} = ∅.
Proof.
  intros Hgt. apply map_eq; intros k'. rewrite lookup_sweepAll, lookup_empty.
  destruct (decide (k' = k)) as [->|Hne].
  - rewrite lookup_singleton_eq. simpl. unfold prune_entry, prune.
    by rewrite filter_cons, decide_False.
  - by rewrite lookup_singleton_ne.
Qed.

(** A customer whose only hit is still retained is refused, whatever the
    age of that hit inside the retention horizon. *)
Lemma rateLimiter_single_retained k t0 now :
  (now - t0 ≤ retentionHorizon)%Z →
  rateLimiterMiddleware (JString k) now {[ k := [t0] ]} =
  ({[ k := [t0] ]}, IDENTITY_COOLDOWN).
Proof.
  intros Hle. rewrite rateLimiterMiddleware_cases. cbn [ToPropertyKey].
  rewrite sweepAll_singleton_keep by done.
  rewrite customerHits_nil.
  - rewrite decide_False by (simpl; lia). by rewrite lookup_singleton_eq.
  - intros k' hits [_ <-]%lookup_singleton_Some. simpl. lia.
Qed.

(** Once the only hit has left the retention horizon the customer is
    admitted again. *)
Lemma rateLimiter_single_expired k t0 now :
  assoc k ObjectPrototype = None →
  ¬ (now - t0 ≤ retentionHorizon)%Z →
  rateLimiterMiddleware (JString k) now {[ k := [t0] ]} = ({[ k := [now] ]}, Next).
Proof.
  intros Hk Hgt. rewrite rateLimiterMiddleware_cases. cbn [ToPropertyKey].
  rewrite sweepAll_singleton_drop by done.
  rewrite customerHits_nil by (intros k' hits; by rewrite lookup_empty).
  rewrite decide_False by (simpl; lia).
  rewrite lookup_empty, Hk. by rewrite insert_empty.
Qed.

(** Tables built by the middleware alone never hold two hits under one key:
    a customer is admitted only when the sweep left no entry for it.  On
    such tables the global rule does not fire. *)
Lemma rateLimiter_at_most_one customer_name now hitTracker :
  (∀ k hits, hitTracker !! k = Some hits → (length hits ≤ 1)%nat) →
  (∀ k hits, (rateLimiterMiddleware customer_name now hitTracker).1 !! k = Some hits →
             (length hits ≤ 1)%nat) ∧
  (rateLimiterMiddleware customer_name now hitTracker).2 ≠ GLOBAL_BURST_EXCEEDED.
Proof.
  intros Hone.
  assert (∀ k hits, sweepAll now retentionHorizon hitTracker !! k = Some hits →
                    (length hits ≤ 1)%nat) as Hswept.
  { intros k hits (_ & hits0 & Hk & ->)%sweepAll_lookup_Some.
    apply Hone in Hk. unfold prune. pose proof (length_filter
      (λ timestamp, (now - timestamp ≤ retentionHorizon)%Z) hits0). lia. }
  rewrite rateLimiterMiddleware_cases.
  rewrite customerHits_nil
    by (intros k hits Hk; apply Hswept in Hk; lia).
  rewrite decide_False by (simpl; lia).
  destruct (_ !! ToPropertyKey customer_name) eqn:E; [by split|].
  destruct (assoc _ ObjectPrototype) as [p|].
  - destruct (length_ge p 1); by split.
  - split; [|done]. intros k hits. cbn [fst].
    destruct (decide (k = ToPropertyKey customer_name)) as [->|Hne].
    + rewrite lookup_insert_eq. intros [= <-]. simpl. lia.
    + rewrite lookup_insert_ne by done. apply Hswept.
Qed.

End rate_limiter_tables.

(** C1 (identity cooldown boundary).  With the single hit ["A" ↦ [t0]] in
    the table, the check for ["A"] at [t0 + 119s] is refused with
    IDENTITY_COOLDOWN, and so is the check at [t0 + 121s] and every check up
    to [t0 + 300s]: line 66 tests the array that the 5-minute sweep left,
    and no 2-minute window is computed.  The customer is admitted again
    only from [t0 + 300.001s] on. *)
Theorem rateLimiter_cooldown_lasts_five_minutes (t0 : Z) :
  let table : gmap string (list Z) := {[ "A" := [t0] ]} in
  RateLimiter.rateLimiterMiddleware (JS.JString "A") (t0 + 119 * 1000) table
    = (table, IDENTITY_COOLDOWN) ∧
  RateLimiter.rateLimiterMiddleware (JS.JString "A") (t0 + 121 * 1000) table
    = (table, IDENTITY_COOLDOWN) ∧
  RateLimiter.rateLimiterMiddleware (JS.JString "A") (t0 + 300 * 1000) table
    = (table, IDENTITY_COOLDOWN) ∧
  RateLimiter.rateLimiterMiddleware (JS.JString "A") (t0 + 300 * 1000 + 1) table
    = ({[ "A" := [(t0 + 300 * 1000 + 1)%Z] ]}, Next).
Proof.
  intros table. subst table. unfold RateLimiter.retentionHorizon.
  repeat split.
  - apply rateLimiter_single_retained. unfold RateLimiter.retentionHorizon. lia.
  - apply rateLimiter_single_retained. unfold RateLimiter.retentionHorizon. lia.
  - apply rateLimiter_single_retained. unfold RateLimiter.retentionHorizon. lia.
  - apply rateLimiter_single_expired; [done|].
    unfold RateLimiter.retentionHorizon. lia.
Qed.

(** C2 (global burst rule).  If, after the sweep to the 5-minute horizon,
    two or more customers have two or more hits each, the request is refused
    with GLOBAL_BURST_EXCEEDED whoever sends it and the table is left as
    swept.  In particular this is so when two different customers each have
    two hits recorded within the last 5 minutes. *)
Theorem rateLimiter_global_burst (customer_name : JS.value) (now : Z)
    (hitTracker : gmap string (list Z)) :
  let swept := Tracker.sweepAll now RateLimiter.retentionHorizon hitTracker in
  ((2 ≤ length (RateLimiter.customerHits swept))%nat →
   RateLimiter.rateLimiterMiddleware customer_name now hitTracker
     = (swept, GLOBAL_BURST_EXCEEDED)) ∧
  (∀ k1 k2 hits1 hits2,
     k1 ≠ k2 →
     hitTracker !! k1 = Some hits1 → hitTracker !! k2 = Some hits2 →
     (2 ≤ Tracker.count_within now RateLimiter.retentionHorizon hits1)%nat →
     (2 ≤ Tracker.count_within now RateLimiter.retentionHorizon hits2)%nat →
     RateLimiter.rateLimiterMiddleware customer_name now hitTracker
       = (swept, GLOBAL_BURST_EXCEEDED)).
Proof.
  intros swept.
  assert ((2 ≤ length (RateLimiter.customerHits swept))%nat →
          RateLimiter.rateLimiterMiddleware customer_name now hitTracker
            = (swept, GLOBAL_BURST_EXCEEDED)) as Hburst.
  { intros Hlen. rewrite rateLimiterMiddleware_cases. fold swept.
    by rewrite decide_True. }
  split; [done|].
  intros k1 k2 hits1 hits2 Hne H1 H2 Hl1 Hl2. apply Hburst.
  rewrite <- length_prune in Hl1, Hl2.
  by apply (customerHits_two now hitTracker k1 k2 hits1 hits2).
Qed.

(** C7 (frame of a Policy A evaluation).  When the request is refused
    (GLOBAL_BURST_EXCEEDED or IDENTITY_COOLDOWN) the table after the call is
    the swept table, nothing recorded.  When it is admitted, the customer
    had no entry left after the sweep, the entry now holds the swept
    sequence followed by the single timestamp [now], and every other key
    reads as in the swept table. *)
Theorem rateLimiter_frame (customer_name : JS.value) (now : Z)
    (hitTracker : gmap string (list Z)) :
  let swept := Tracker.sweepAll now RateLimiter.retentionHorizon hitTracker in
  let key := JS.ToPropertyKey customer_name in
  let result := RateLimiter.rateLimiterMiddleware customer_name now hitTracker in
  (result.2 = GLOBAL_BURST_EXCEEDED ∨ result.2 = IDENTITY_COOLDOWN →
   result.1 = swept) ∧
  (result.2 = Next →
   swept !! key = None ∧
   result.1 = <[key := [now]]> swept ∧
   result.1 !!! key = (swept !!! key ++ [now])%list ∧
   ∀ k, k ≠ key → result.1 !! k = swept !! k).
Proof.
  intros swept key result. subst result.
  rewrite rateLimiterMiddleware_cases. fold swept key.
  destruct (decide (2 ≤ length (RateLimiter.customerHits swept))%nat); [by split|].
  destruct (swept !! key) as [hits|] eqn:E; [by split|].
  destruct (JS.assoc key JS.ObjectPrototype) as [p|].
  - destruct (JS.length_ge p 1); by split.
  - split; [by intros [?|?]|]. intros _. cbn [fst].
    split; [done|]. split; [done|]. split.
    + by rewrite lookup_total_insert_eq, lookup_total_alt, E.
    + intros k Hk. by rewrite lookup_insert_ne.
Qed.

(** C8 (absent or empty identity).  With [customer_name] absent or the empty
    string the middleware runs as for any other customer, the key being
    ["undefined"] (the property key of an absent field) or [""]: the global
    rule refuses when it fires, a retained hit under the key refuses with
    IDENTITY_COOLDOWN, and otherwise the request is admitted and the hit is
    recorded under the key. *)
Theorem rateLimiter_absent_or_empty (customer_name : JS.value) (now : Z)
    (hitTracker : gmap string (list Z)) :
  customer_name = JS.JUndefined ∨ customer_name = JS.JString "" →
  let swept := Tracker.sweepAll now RateLimiter.retentionHorizon hitTracker in
  let key := JS.ToPropertyKey customer_name in
  let result := RateLimiter.rateLimiterMiddleware customer_name now hitTracker in
  (key = "undefined" ∨ key = "") ∧
  ((2 ≤ length (RateLimiter.customerHits swept))%nat →
   result = (swept, GLOBAL_BURST_EXCEEDED)) ∧
  (¬ (2 ≤ length (RateLimiter.customerHits swept))%nat → is_Some (swept !! key) →
   result = (swept, IDENTITY_COOLDOWN)) ∧
  (¬ (2 ≤ length (RateLimiter.customerHits swept))%nat → swept !! key = None →
   result = (<[key := [now]]> swept, Next)).
Proof.
  intros Hname swept key result. subst result.
  rewrite rateLimiterMiddleware_cases. fold swept key.
  assert (JS.assoc key JS.ObjectPrototype = None) as Hproto
    by (subst key; by destruct Hname as [-> | ->]).
  split; [subst key; destruct Hname as [-> | ->]; auto|].
  split; [|split].
  - intros Hb. by rewrite decide_True.
  - intros Hb [hits Hk]. by rewrite decide_False, Hk.
  - intros Hb Hk. by rewrite decide_False, Hk, Hproto.
Qed.

(** C9 (totality of the admission evaluation).  On the empty table, a
    request whose [customer_name] is ["toString"] makes the middleware throw
    a TypeError instead of returning a decision: the name resolves to
    [Object.prototype.toString], which is truthy, has [length] 0 and has no
    [push]. *)
Theorem rateLimiter_throws_on_toString (now : Z) :
  RateLimiter.rateLimiterMiddleware (JS.JString "toString") now ∅ =
  (∅, Throw "TypeError: hitTracker[customer_name].push is not a function").
Proof.
  rewrite rateLimiterMiddleware_cases. cbn [JS.ToPropertyKey].
  assert (Tracker.sweepAll now RateLimiter.retentionHorizon ∅ = ∅) as ->.
  { apply map_eq; intros k. by rewrite lookup_sweepAll, lookup_empty. }
  rewrite customerHits_nil by (intros k hits; by rewrite lookup_empty).
  rewrite decide_False by (simpl; lia). by rewrite lookup_empty.
Qed.

(** Away from the names defined on [Object.prototype] the middleware always
    returns one of its three decisions. *)
Lemma rateLimiter_decides_off_prototype (customer_name : JS.value) (now : Z)
    (hitTracker : gmap string (list Z)) :
  JS.assoc (JS.ToPropertyKey customer_name) JS.ObjectPrototype = None →
  (RateLimiter.rateLimiterMiddleware customer_name now hitTracker).2
    ∈ [Next; GLOBAL_BURST_EXCEEDED; IDENTITY_COOLDOWN].
Proof.
  intros Hproto. rewrite rateLimiterMiddleware_cases.
  case_decide; [set_solver|].
  destruct (_ !! _); [set_solver|]. rewrite Hproto. set_solver.
Qed.

Lemma rateLimiter_global_burst_witness :
  RateLimiter.rateLimiterMiddleware (JS.JString "C") 5000 tableAB
    = (tableAB, GLOBAL_BURST_EXCEEDED) ∧
  RateLimiter.rateLimiterMiddleware JS.JUndefined 5000 tableAB
    = (tableAB, GLOBAL_BURST_EXCEEDED).
Proof.
  split.
  - replace tableAB with (Tracker.sweepAll 5000 RateLimiter.retentionHorizon tableAB)
      at 2 by (vm_compute; reflexivity).
    apply (proj1 (rateLimiter_global_burst (JS.JString "C") 5000 tableAB)).
    vm_compute. lia.
  - replace tableAB with (Tracker.sweepAll 5000 RateLimiter.retentionHorizon tableAB)
      at 2 by (vm_compute; reflexivity).
    apply (proj2 (rateLimiter_global_burst JS.JUndefined 5000 tableAB)
             "A" "B" [1000%Z; 2000%Z] [1500%Z; 2500%Z]);
      [done | vm_compute; reflexivity | vm_compute; reflexivity
      | vm_compute; lia | vm_compute; lia].
Defined.

Lemma rateLimiter_frame_witness :
  (RateLimiter.rateLimiterMiddleware (JS.JString "C") 5000 tableAB).1 = tableAB ∧
  (RateLimiter.rateLimiterMiddleware (JS.JString "C") 5000 ∅).1 !!! "C" = [5000%Z].
Proof.
  split.
  - replace tableAB with (Tracker.sweepAll 5000 RateLimiter.retentionHorizon tableAB)
      at 2 by (vm_compute; reflexivity).
    apply (proj1 (rateLimiter_frame (JS.JString "C") 5000 tableAB)).
    left. vm_compute. reflexivity.
  - assert ((RateLimiter.rateLimiterMiddleware (JS.JString "C") 5000 ∅).2 = Next) as HN
      by (vm_compute; reflexivity).
    destruct (proj2 (rateLimiter_frame (JS.JString "C") 5000 ∅) HN) as (_ & _ & Happ & _).
    etrans; [exact Happ | vm_compute; reflexivity].
Defined.

Lemma rateLimiter_absent_or_empty_witness :
  RateLimiter.rateLimiterMiddleware JS.JUndefined 7000 ∅ = ({[ "undefined" := [7000%Z] ]}, Next) ∧
  RateLimiter.rateLimiterMiddleware (JS.JString "") 7000 {[ "" := [1000%Z] ]}
    = ({[ "" := [1000%Z] ]}, IDENTITY_COOLDOWN).
Proof.
  split.
  - destruct (rateLimiter_absent_or_empty JS.JUndefined 7000 ∅ (or_introl eq_refl))
      as (_ & _ & _ & Hadmit).
    rewrite Hadmit; [vm_compute; reflexivity | vm_compute; lia | vm_compute; reflexivity].
  - destruct (rateLimiter_absent_or_empty (JS.JString "") 7000 {[ "" := [1000%Z] ]}
                (or_intror eq_refl)) as (_ & _ & Hcool & _).
    rewrite Hcool; [vm_compute; reflexivity | vm_compute; lia | vm_compute; eauto].
Defined.

(** ** Properties of Policy B *)

(** C6 (time blackout).  On day 1 of the Sunday-start week (Monday) the
    request is refused with BLACKOUT_DAY whatever the hour; on any other day
    an hour [h] with [8 ≤ h < 12] is refused with BLACKOUT_HOURS, and hour
    15 (like every hour outside [8, 12)) is admitted. *)
Theorem timeRestriction_blackout (now : Clock.Date) :
  (Clock.getDay now = 1%Z →
   TimeRestriction.timeRestrictionMiddleware now = BLACKOUT_DAY) ∧
  (Clock.getDay now ≠ 1%Z → (8 ≤ Clock.getHours now < 12)%Z →
   TimeRestriction.timeRestrictionMiddleware now = BLACKOUT_HOURS) ∧
  (Clock.getDay now ≠ 1%Z → Clock.getHours now = 15%Z →
   TimeRestriction.timeRestrictionMiddleware now = Next) ∧
  (Clock.getDay now ≠ 1%Z → ¬ (8 ≤ Clock.getHours now < 12)%Z →
   TimeRestriction.timeRestrictionMiddleware now = Next).
Proof.
  unfold TimeRestriction.timeRestrictionMiddleware. repeat split.
  - intros Hd. by rewrite decide_True.
  - intros Hd Hh. rewrite decide_False by done. by rewrite decide_True.
  - intros Hd Hh. rewrite decide_False by done. rewrite decide_False; [done|lia].
  - intros Hd Hh. rewrite decide_False by done. by rewrite decide_False.
Qed.

(** Policy B returns a decision at every instant. *)
Lemma timeRestriction_decides (now : Clock.Date) :
  TimeRestriction.timeRestrictionMiddleware now ∈ [Next; BLACKOUT_DAY; BLACKOUT_HOURS].
Proof.
  unfold TimeRestriction.timeRestrictionMiddleware.
  destruct (decide _); [|destruct (decide _)]; rewrite !elem_of_cons; auto.
Qed.

Lemma timeRestriction_blackout_witness :
  TimeRestriction.timeRestrictionMiddleware monday15 = BLACKOUT_DAY ∧
  TimeRestriction.timeRestrictionMiddleware tuesday09 = BLACKOUT_HOURS ∧
  TimeRestriction.timeRestrictionMiddleware tuesday15 = Next.
Proof.
  split; [|split].
  - apply (proj1 (timeRestriction_blackout monday15)). vm_compute. reflexivity.
  - apply (proj1 (proj2 (timeRestriction_blackout tuesday09))).
    + vm_compute. discriminate.
    + vm_compute. split; [discriminate|reflexivity].
  - apply (proj1 (proj2 (proj2 (timeRestriction_blackout tuesday15)))).
    + vm_compute. discriminate.
    + vm_compute. reflexivity.
Defined.

(** ** Properties of the credentials *)

Section credential_lemmas.
Import Tokens.
Context {signature : Type} `{EqDecision signature}.
Variable mac : string → claims → signature.
Variables ACCESS_TOKEN_SECRET REFRESH_TOKEN_SECRET : string.

Abbreviation sign := (sign mac ACCESS_TOKEN_SECRET REFRESH_TOKEN_SECRET).
Abbreviation verify := (verify mac ACCESS_TOKEN_SECRET REFRESH_TOKEN_SECRET).


(** A credential verifies under its own kind until it expires. *)
Lemma verify_sign_valid k subject t0 now :
  (now ≤ t0 + ttl k)%Z →
  verify k (sign k subject t0) now =
  inr {| userId := subject; issuedAt := t0; expiresAt := t0 + ttl k |}.
Proof.
  intros Hnow. unfold Tokens.verify, Tokens.sign, jwt_verify, jwt_sign.
  cbn [payload sig expiresAt].
  rewrite decide_True by done. by rewrite decide_False by lia.
Qed.



(** When the two secrets sign the claims alike, the credential is taken
    for one of the other kind. *)
Lemma verify_sign_same_signature k k' subject t0 now :
  mac (secret ACCESS_TOKEN_SECRET REFRESH_TOKEN_SECRET k)
      {| userId := subject; issuedAt := t0; expiresAt := t0 + ttl k |}
  = mac (secret ACCESS_TOKEN_SECRET REFRESH_TOKEN_SECRET k')
      {| userId := subject; issuedAt := t0; expiresAt := t0 + ttl k |} →
  (now ≤ t0 + ttl k)%Z →
  verify k' (sign k subject t0) now
  = inr {| userId := subject; issuedAt := t0; expiresAt := t0 + ttl k |}.
Proof.
  intros Heq Hnow. unfold Tokens.verify, Tokens.sign, jwt_verify, jwt_sign.
  cbn [payload sig expiresAt].
  rewrite decide_True by done. by rewrite decide_False by lia.
Qed.

Lemma length_secretOfLength n : String.length (secretOfLength n) = n.
Proof. induction n as [|n IH]; [done|]. simpl. by rewrite IH. Qed.

End credential_lemmas.

(** Whatever the signature function, if it has finitely many signatures
    then some two distinct secrets sign the claims of an access credential
    alike, and that credential is accepted as a refresh credential. *)
Lemma finite_signatures_collide {signature : Type} `{Finite signature}
    (mac : string → Tokens.claims → signature) (subject : string) (t0 : Z) :
  ∃ ACCESS_TOKEN_SECRET REFRESH_TOKEN_SECRET,
    ACCESS_TOKEN_SECRET ≠ REFRESH_TOKEN_SECRET ∧
    Tokens.verify mac ACCESS_TOKEN_SECRET REFRESH_TOKEN_SECRET Tokens.Refresh
      (Tokens.sign mac ACCESS_TOKEN_SECRET REFRESH_TOKEN_SECRET Tokens.Access subject t0)
      (t0 + 10)%Z
    = inr {| Tokens.userId := subject; Tokens.issuedAt := t0;
             Tokens.expiresAt := t0 + Tokens.ttl Tokens.Access |}.
Proof.
  pose (c := {| Tokens.userId := subject; Tokens.issuedAt := t0;
                Tokens.expiresAt := (t0 + Tokens.ttl Tokens.Access)%Z |}).
  destruct (finite_pigeonhole
              (λ i : fin (S (card signature)), mac (secretOfLength (fin_to_nat i)) c))
    as (i1 & i2 & Hne & Heq); [rewrite fin_card; lia|].
  exists (secretOfLength (fin_to_nat i1)), (secretOfLength (fin_to_nat i2)).
  split.
  - intros Hs. apply Hne. apply (inj fin_to_nat).
    by rewrite <- (length_secretOfLength (fin_to_nat i1)),
               <- (length_secretOfLength (fin_to_nat i2)), Hs.
  - apply (verify_sign_same_signature mac _ _ Tokens.Access Tokens.Refresh);
      [exact Heq|simpl; lia].
Qed.



(** C4 (rotation), as amended.  If the submitted refresh credential
    verifies for a subject, [/auth/refresh] answers with a new access and a
    new refresh credential, both carrying that subject and both valid at
    that instant, the new refresh credential expiring strictly later than
    [now].  If the verification fails, the answer is 403 Forbidden whatever
    the VerifyError, which the answer does not carry, and no credential is
    issued. *)
Theorem authRefresh_rotates {signature : Type} `{EqDecision signature}
    (mac : string → Tokens.claims → signature)
    (ACCESS_TOKEN_SECRET REFRESH_TOKEN_SECRET : string)
    (refreshToken : Tokens.token signature) (now : Z) :
  let verify := Tokens.verify mac ACCESS_TOKEN_SECRET REFRESH_TOKEN_SECRET in
  let rotate := Tokens.authRefresh mac ACCESS_TOKEN_SECRET REFRESH_TOKEN_SECRET in
  (∀ decoded, verify Tokens.Refresh refreshToken now = inr decoded →
     ∃ fresh, rotate (Some refreshToken) now = inr fresh ∧
       Tokens.userId (Tokens.payload (Tokens.accessToken fresh)) = Tokens.userId decoded ∧
       Tokens.userId (Tokens.payload (Tokens.refreshToken fresh)) = Tokens.userId decoded ∧
       verify Tokens.Access (Tokens.accessToken fresh) now
         = inr (Tokens.payload (Tokens.accessToken fresh)) ∧
       verify Tokens.Refresh (Tokens.refreshToken fresh) now
         = inr (Tokens.payload (Tokens.refreshToken fresh)) ∧
       (now < Tokens.expiresAt (Tokens.payload (Tokens.refreshToken fresh)))%Z) ∧
  (∀ e, verify Tokens.Refresh refreshToken now = inl e →
     rotate (Some refreshToken) now = inl (Json 403 "Forbidden")).
Proof.
  intros verify rotate. subst verify rotate.
  unfold Tokens.authRefresh, Tokens.verify. cbn [Tokens.secret]. split.
  - intros decoded ->. eexists. split; [done|].
    unfold Tokens.generateTokens. cbn [Tokens.accessToken Tokens.refreshToken].
    split; [done|]. split; [done|].
    split; [|split].
    + apply (verify_sign_valid mac ACCESS_TOKEN_SECRET REFRESH_TOKEN_SECRET Tokens.Access).
      simpl. lia.
    + apply (verify_sign_valid mac ACCESS_TOKEN_SECRET REFRESH_TOKEN_SECRET Tokens.Refresh).
      simpl. lia.
    + simpl. lia.
  - by intros e ->.
Qed.

(** Against C4 as written: an expired refresh token and one with
    a foreign signature fail with different VerifyErrors and get the same
    answer, so that no reading of the answer gives the VerifyError back. *)
Lemma authRefresh_answer_hides_the_error :
  let verify := Tokens.verify pairMac "access-secret" "refresh-secret" Tokens.Refresh in
  let rotate := Tokens.authRefresh pairMac "access-secret" "refresh-secret" in
  verify expiredRefresh 40000000%Z = inl Tokens.EXPIRED
  ∧ verify forgedRefresh 40000000%Z = inl Tokens.INVALID_SIGNATURE
  ∧ rotate (Some expiredRefresh) 40000000%Z = rotate (Some forgedRefresh) 40000000%Z
  ∧ ¬ ∃ errorOf : outcome + Tokens.tokensPair (string * Tokens.claims) → Tokens.VerifyError,
        ∀ t now e, verify t now = inl e → errorOf (rotate (Some t) now) = e.
Proof.
  intros verify rotate.
  assert (verify expiredRefresh 40000000%Z = inl Tokens.EXPIRED) as He
    by (vm_compute; reflexivity).
  assert (verify forgedRefresh 40000000%Z = inl Tokens.INVALID_SIGNATURE) as Hf
    by (vm_compute; reflexivity).
  assert (rotate (Some expiredRefresh) 40000000%Z = rotate (Some forgedRefresh) 40000000%Z)
    as Hsame by (vm_compute; reflexivity).
  split; [done|]. split; [done|]. split; [done|].
  intros [errorOf Herr].
  pose proof (Herr _ _ _ He) as H1. pose proof (Herr _ _ _ Hf) as H2.
  rewrite Hsame in H1. rewrite H1 in H2. discriminate.
Qed.


Lemma authRefresh_rotates_witness :
  ∃ fresh,
    Tokens.authRefresh pairMac "access-secret" "refresh-secret"
      (Some (Tokens.sign pairMac "access-secret" "refresh-secret" Tokens.Refresh "user-1" 1000))
      5000 = inr fresh ∧
    Tokens.userId (Tokens.payload (Tokens.accessToken fresh)) = "user-1" ∧
    Tokens.userId (Tokens.payload (Tokens.refreshToken fresh)) = "user-1" ∧
    (5000 < Tokens.expiresAt (Tokens.payload (Tokens.refreshToken fresh)))%Z.
Proof.
  destruct (authRefresh_rotates pairMac "access-secret" "refresh-secret"
              (Tokens.sign pairMac "access-secret" "refresh-secret" Tokens.Refresh "user-1" 1000)
              5000) as [Hok _].
  destruct (Hok {| Tokens.userId := "user-1"; Tokens.issuedAt := 1000;
                   Tokens.expiresAt := 1000 + Tokens.ttl Tokens.Refresh |})
    as (fresh & Hrot & Ha & Hr & _ & _ & Hexp).
  - vm_compute. reflexivity.
  - exists fresh. split; [exact Hrot|]. split; [exact Ha|]. split; [exact Hr|exact Hexp].
Defined.

(** ** Further properties of the sweep *)

Section sweep_more.
Import JS Tracker.
Implicit Types (hitTracker : gmap string (list Z)) (hits : list Z).

Lemma prune_prune_le now1 now2 horizon hits :
  (now1 ≤ now2)%Z →
  prune now2 horizon (prune now1 horizon hits) = prune now2 horizon hits.
Proof.
  intros Hle. unfold prune. induction hits as [|t hits IH]; [done|].
  rewrite !filter_cons. destruct (decide (now2 - t ≤ horizon)%Z) as [H2|H2].
  - rewrite decide_True by lia. rewrite filter_cons, decide_True by done.
    by rewrite IH.
  - case_decide; [|done]. by rewrite filter_cons, decide_False.
Qed.

Lemma prune_entry_le now1 now2 horizon hits :
  (now1 ≤ now2)%Z →
  prune_entry now1 horizon hits ≫= prune_entry now2 horizon
  = prune_entry now2 horizon hits.
Proof.
  intros Hle. unfold prune_entry.
  pose proof (prune_prune_le now1 now2 horizon hits Hle) as Hpp.
  destruct (prune now1 horizon hits) as [|t l]; simpl.
  - by rewrite <- Hpp.
  - by rewrite Hpp.
Qed.

Lemma sweepAll_window_retention_aux now horizon hitTracker k hits :
  sweepAll now horizon hitTracker !! k = Some hits →
  hits ≠ [] ∧ Forall (λ t, (now - t ≤ horizon)%Z) hits.
Proof.
  intros (Hne & hits0 & _ & ->)%sweepAll_lookup_Some. split; [done|].
  apply Forall_forall. by intros t [_ ?]%elem_of_prune.
Qed.

End sweep_more.

(** X1.  The sweep does not depend on the order in which [for ... in]
    visits the keys: run over any arrangement of the table's keys, the loop
    leaves the same table. *)
Theorem sweep_any_key_order (now horizon : Z) (names : list string)
    (hitTracker : gmap string (list Z)) :
  names ≡ₚ JS.keys hitTracker →
  Tracker.sweep_keys now horizon names hitTracker = Tracker.sweepAll now horizon hitTracker.
Proof.
  intros Hperm. apply map_eq; intros k.
  rewrite lookup_sweep_keys, lookup_sweepAll.
  case_decide as Hk; [done|].
  rewrite Hperm, elem_of_keys in Hk. apply eq_None_not_Some in Hk. by rewrite Hk.
Qed.

Lemma sweep_any_key_order_witness :
  Tracker.sweep_keys 400000 300000 ["B"; "A"] {[ "A" := [50000%Z; 150000%Z]; "B" := [1000%Z] ]}
  = {[ "A" := [150000%Z] ]}.
Proof.
  rewrite (sweep_any_key_order 400000 300000 ["B"; "A"]
             {[ "A" := [50000%Z; 150000%Z]; "B" := [1000%Z] ]}).
  - vm_compute. reflexivity.
  - vm_compute. apply perm_swap.
Defined.

(** X2.  Sweeps compose: after a sweep at [now1], a sweep at a later
    instant [now2] leaves the table that the sweep at [now2] alone would
    have left. *)
Theorem sweepAll_later (now1 now2 horizon : Z) (hitTracker : gmap string (list Z)) :
  (now1 ≤ now2)%Z →
  Tracker.sweepAll now2 horizon (Tracker.sweepAll now1 horizon hitTracker)
  = Tracker.sweepAll now2 horizon hitTracker.
Proof.
  intros Hle. apply map_eq; intros k. rewrite !lookup_sweepAll.
  destruct (hitTracker !! k) as [hits|]; [|done]. simpl.
  by apply prune_entry_le.
Qed.

Lemma sweepAll_later_witness :
  Tracker.sweepAll 400000 300000 (Tracker.sweepAll 200000 300000 tableAB)
  = Tracker.sweepAll 400000 300000 tableAB.
Proof. apply (sweepAll_later 200000 400000 300000 tableAB). vm_compute. discriminate. Defined.

(** X3.  Whatever the table before the call and whatever the outcome, the
    table that [rateLimiterMiddleware] leaves holds no empty array and no
    timestamp older than 5 minutes at the instant of the call. *)
Theorem rateLimiter_leaves_fresh_table (customer_name : JS.value) (now : Z)
    (hitTracker : gmap string (list Z)) (k : string) (hits : list Z) :
  (RateLimiter.rateLimiterMiddleware customer_name now hitTracker).1 !! k = Some hits →
  hits ≠ [] ∧ Forall (λ t, (now - t ≤ RateLimiter.retentionHorizon)%Z) hits.
Proof.
  pose proof (sweepAll_window_retention_aux now RateLimiter.retentionHorizon hitTracker)
    as Hswept.
  rewrite rateLimiterMiddleware_cases.
  destruct (decide _); [apply Hswept|].
  destruct (_ !! JS.ToPropertyKey customer_name) eqn:E; [apply Hswept|].
  destruct (JS.assoc _ JS.ObjectPrototype) as [p|].
  - destruct (JS.length_ge p 1); apply Hswept.
  - cbn [fst]. destruct (decide (k = JS.ToPropertyKey customer_name)) as [->|Hne].
    + rewrite lookup_insert_eq. intros [= <-]. split; [done|].
      apply Forall_singleton. unfold RateLimiter.retentionHorizon. lia.
    + rewrite lookup_insert_ne by done. apply Hswept.
Qed.

Lemma rateLimiter_leaves_fresh_table_witness :
  Forall (λ t, (400000 - t ≤ RateLimiter.retentionHorizon)%Z) [150000%Z].
Proof.
  apply (rateLimiter_leaves_fresh_table (JS.JString "C") 400000
           {[ "A" := [50000%Z; 150000%Z]; "B" := [1000%Z] ]} "A" [150000%Z]).
  vm_compute. reflexivity.
Defined.

(** ** Successive requests *)

Section serve_lemmas.
Import JS Tracker RateLimiter Serve.
Implicit Types (hitTracker : gmap string (list Z)) (hits : list Z).

Lemma at_most_one_no_burst hitTracker :
  (∀ k hits, hitTracker !! k = Some hits → (length hits ≤ 1)%nat) →
  ¬ (2 ≤ length (customerHits hitTracker))%nat.
Proof.
  intros Hone. rewrite customerHits_nil; [simpl; lia|].
  intros k hits Hk. apply Hone in Hk. lia.
Qed.

(** An admitted request leaves its instant under its key. *)
Lemma rateLimiter_admitted_entry customer_name now hitTracker :
  (rateLimiterMiddleware customer_name now hitTracker).2 = Next →
  (rateLimiterMiddleware customer_name now hitTracker).1
  = <[ToPropertyKey customer_name := [now]]> (sweepAll now retentionHorizon hitTracker)
  ∧ sweepAll now retentionHorizon hitTracker !! ToPropertyKey customer_name = None
  ∧ assoc (ToPropertyKey customer_name) ObjectPrototype = None.
Proof.
  rewrite rateLimiterMiddleware_cases.
  destruct (decide _); [done|].
  destruct (_ !! ToPropertyKey customer_name) eqn:E; [done|].
  destruct (assoc _ ObjectPrototype) as [p|]; [by destruct (length_ge p 1)|done].
Qed.

(** The table after a call is the swept table, plus the new hit if the
    request was admitted. *)
Lemma rateLimiter_table customer_name now hitTracker :
  (rateLimiterMiddleware customer_name now hitTracker).1
  = if decide ((rateLimiterMiddleware customer_name now hitTracker).2 = Next)
    then <[ToPropertyKey customer_name := [now]]> (sweepAll now retentionHorizon hitTracker)
    else sweepAll now retentionHorizon hitTracker.
Proof.
  case_decide as Hn; [by apply rateLimiter_admitted_entry|].
  revert Hn. rewrite rateLimiterMiddleware_cases.
  destruct (decide _); [done|].
  destruct (_ !! ToPropertyKey customer_name) eqn:E; [done|].
  destruct (assoc _ ObjectPrototype) as [p|]; [by destruct (length_ge p 1)|done].
Qed.

(** A hit that is still within the horizon stays in the table through a
    call, and bars its own key from admission. *)
Lemma rateLimiter_keeps_entry customer_name now hitTracker k hits t :
  hitTracker !! k = Some hits → t ∈ hits → (now - t ≤ retentionHorizon)%Z →
  (∃ hits', (rateLimiterMiddleware customer_name now hitTracker).1 !! k = Some hits'
            ∧ t ∈ hits')
  ∧ (ToPropertyKey customer_name = k →
     (rateLimiterMiddleware customer_name now hitTracker).2 ≠ Next).
Proof.
  intros Hk Ht Hnow.
  assert (sweepAll now retentionHorizon hitTracker !! k
          = Some (prune now retentionHorizon hits) ∧ t ∈ prune now retentionHorizon hits)
    as [Hswept Hin].
  { assert (t ∈ prune now retentionHorizon hits) as Hin by by apply elem_of_prune.
    split; [|done]. rewrite lookup_sweepAll, Hk. simpl. apply prune_entry_Some.
    split; [done|]. intros Hnil. rewrite Hnil in Hin. by apply not_elem_of_nil in Hin. }
  assert (ToPropertyKey customer_name = k →
          (rateLimiterMiddleware customer_name now hitTracker).2 ≠ Next) as Hbar.
  { intros <- (_ & Hnone & _)%rateLimiter_admitted_entry. congruence. }
  split; [|done]. rewrite rateLimiter_table. case_decide as Hn.
  - destruct (decide (ToPropertyKey customer_name = k)) as [Heq|Hne].
    + by destruct (Hbar Heq).
    + rewrite lookup_insert_ne by done. eauto.
  - eauto.
Qed.

Lemma serve_cons customer_name now requests hitTracker :
  serve ((customer_name, now) :: requests) hitTracker
  = ((serve requests (rateLimiterMiddleware customer_name now hitTracker).1).1,
     (rateLimiterMiddleware customer_name now hitTracker).2
       :: (serve requests (rateLimiterMiddleware customer_name now hitTracker).1).2).
Proof. done. Qed.

(** While a hit of a key is in the table, a later request of that key is
    admitted only more than 5 minutes after it. *)
Lemma serve_guard requests :
  ∀ hitTracker k hits t t0 j cj tj,
    hitTracker !! k = Some hits → t ∈ hits → (t0 ≤ t)%Z →
    StronglySorted Z.le (requests.*2) →
    requests !! j = Some (cj, tj) → ToPropertyKey cj = k →
    (serve requests hitTracker).2 !! j = Some Next →
    (tj - t0 > retentionHorizon)%Z.
Proof.
  induction requests as [|[c now] requests IH];
    intros hitTracker k hits t t0 j cj tj Hk Ht Ht0 Hsorted Hj Hkey Hadm; [done|].
  rewrite serve_cons in Hadm. cbn [snd] in Hadm.
  rewrite fmap_cons in Hsorted. cbn [snd] in Hsorted.
  apply StronglySorted_inv in Hsorted as [Hsorted Hlater].
  destruct (decide (now - t ≤ retentionHorizon)%Z) as [Hin|Hout].
  - destruct (rateLimiter_keeps_entry c now hitTracker k hits t Hk Ht Hin)
      as [(hits' & Hk' & Ht') Hbar].
    destruct j as [|j]; simpl in Hj, Hadm.
    + injection Hj as -> ->. injection Hadm as Hadm. by destruct (Hbar Hkey).
    + by eapply (IH _ k hits' t t0 j cj tj).
  - assert (now ≤ tj)%Z; [|lia].
    destruct j as [|j]; simpl in Hj.
    + injection Hj as -> ->. lia.
    + rewrite Forall_forall in Hlater. apply Hlater.
      apply list_elem_of_lookup_2 in Hj.
      by apply (list_elem_of_fmap_2' snd _ (cj, tj)).
Qed.

End serve_lemmas.

(** X4.  The rate limit that the code enforces: when the clock does not go
    back between requests, two admitted requests with the same property key
    are more than 5 minutes apart, whatever the table was at the start and
    whatever the other requests are. *)
Theorem serve_admissions_spaced (requests : list (JS.value * Z))
    (hitTracker : gmap string (list Z)) (i j : nat) (ci cj : JS.value) (ti tj : Z) :
  StronglySorted Z.le (requests.*2) →
  (i < j)%nat →
  requests !! i = Some (ci, ti) → requests !! j = Some (cj, tj) →
  JS.ToPropertyKey ci = JS.ToPropertyKey cj →
  (Serve.serve requests hitTracker).2 !! i = Some Next →
  (Serve.serve requests hitTracker).2 !! j = Some Next →
  (tj - ti > RateLimiter.retentionHorizon)%Z.
Proof.
  revert hitTracker i j.
  induction requests as [|[c now] requests IH];
    intros hitTracker i j Hsorted Hij Hi Hj Hkey Hai Haj; [done|].
  rewrite serve_cons in Hai, Haj. cbn [snd] in Hai, Haj.
  rewrite fmap_cons in Hsorted. cbn [snd] in Hsorted.
  apply StronglySorted_inv in Hsorted as [Hsorted _].
  destruct j as [|j]; [lia|]. simpl in Hj, Haj.
  destruct i as [|i]; simpl in Hi, Hai.
  - injection Hi as -> ->. injection Hai as Hai.
    apply rateLimiter_admitted_entry in Hai as (Htable & _ & _).
    apply (serve_guard requests
             (RateLimiter.rateLimiterMiddleware ci ti hitTracker).1
             (JS.ToPropertyKey ci) [ti] ti ti j cj tj); try done.
    + rewrite Htable. apply lookup_insert_eq.
    + by apply list_elem_of_singleton.
  - eapply (IH _ i j); try done. lia.
Qed.

Lemma serve_admissions_spaced_witness : (400000 - 0 > RateLimiter.retentionHorizon)%Z.
Proof.
  apply (serve_admissions_spaced requestsABA ∅ 0 3
           (JS.JString "A") (JS.JString "A") 0 400000).
  - simpl. repeat constructor; lia.
  - lia.
  - reflexivity.
  - reflexivity.
  - reflexivity.
  - vm_compute. reflexivity.
  - vm_compute. reflexivity.
Defined.

Section serve_invariants.
Import JS Tracker RateLimiter Serve.
Implicit Types (hitTracker : gmap string (list Z)) (hits : list Z).

(** No key of the table is a name defined on [Object.prototype]. *)
Lemma rateLimiter_keeps_prototype_clear customer_name now hitTracker :
  (∀ k, is_Some (assoc k ObjectPrototype) → hitTracker !! k = None) →
  (∀ k, is_Some (assoc k ObjectPrototype) →
        (rateLimiterMiddleware customer_name now hitTracker).1 !! k = None)
  ∧ (is_Some (assoc (ToPropertyKey customer_name) ObjectPrototype) →
     (rateLimiterMiddleware customer_name now hitTracker).2 ≠ Next).
Proof.
  intros Hclear.
  assert (is_Some (assoc (ToPropertyKey customer_name) ObjectPrototype) →
          (rateLimiterMiddleware customer_name now hitTracker).2 ≠ Next) as Hbar.
  { intros [p Hp] (_ & _ & Hnone)%rateLimiter_admitted_entry. congruence. }
  split; [|done]. intros k Hk.
  assert (sweepAll now retentionHorizon hitTracker !! k = None) as Hswept
    by by rewrite lookup_sweepAll, (Hclear k Hk).
  rewrite rateLimiter_table. case_decide as Hn; [|done].
  rewrite lookup_insert_ne; [done|]. intros <-. by destruct (Hbar Hk).
Qed.

End serve_invariants.

(** X5.  The global rule never fires on tables that the middleware built
    itself: starting from a table with at most one hit per key (the empty
    table of line 48 in particular), no request of any sequence is answered
    with the '2 hits per 5 minutes' response. *)
Theorem serve_never_global_burst (requests : list (JS.value * Z))
    (hitTracker : gmap string (list Z)) :
  (∀ k hits, hitTracker !! k = Some hits → (length hits ≤ 1)%nat) →
  GLOBAL_BURST_EXCEEDED ∉ (Serve.serve requests hitTracker).2.
Proof.
  revert hitTracker.
  induction requests as [|[c now] requests IH]; intros hitTracker Hone.
  - apply not_elem_of_nil.
  - rewrite serve_cons. cbn [snd].
    destruct (rateLimiter_at_most_one c now hitTracker Hone) as [Hone' Hno].
    apply not_elem_of_cons. split; [done|]. by apply IH.
Qed.

Lemma serve_never_global_burst_witness :
  GLOBAL_BURST_EXCEEDED ∉ (Serve.serve requestsABA ∅).2.
Proof.
  apply (serve_never_global_burst requestsABA ∅).
  intros k hits Hk. by rewrite lookup_empty in Hk.
Defined.

(** X7.  A customer whose name is a property of [Object.prototype]
    (["constructor"], ["toString"], ["__proto__"], ...) is never admitted:
    starting from a table with no such key, and so from the empty table, no
    request of any sequence made under such a name reaches [next()]. *)
Theorem serve_prototype_names_locked_out (requests : list (JS.value * Z))
    (hitTracker : gmap string (list Z)) (j : nat) (customer_name : JS.value) (now : Z) :
  (∀ k, is_Some (JS.assoc k JS.ObjectPrototype) → hitTracker !! k = None) →
  requests !! j = Some (customer_name, now) →
  is_Some (JS.assoc (JS.ToPropertyKey customer_name) JS.ObjectPrototype) →
  (Serve.serve requests hitTracker).2 !! j ≠ Some Next.
Proof.
  revert hitTracker j.
  induction requests as [|[c t] requests IH]; intros hitTracker j Hclear Hj Hname;
    [done|].
  rewrite serve_cons. cbn [snd].
  destruct (rateLimiter_keeps_prototype_clear c t hitTracker Hclear) as [Hclear' Hbar].
  destruct j as [|j]; simpl in *.
  - injection Hj as -> ->. intros [= Hn]. by destruct (Hbar Hname).
  - by apply IH.
Qed.

Lemma serve_prototype_names_locked_out_witness :
  (Serve.serve requestsOdd ∅).2 !! 1%nat ≠ Some Next.
Proof.
  apply (serve_prototype_names_locked_out requestsOdd ∅ 1 (JS.JString "constructor") 1000).
  - intros k _. apply lookup_empty.
  - reflexivity.
  - vm_compute. eauto.
Defined.

(** X8.  After an admitted request, a request with the same property key
    made up to 5 minutes later is answered 429, for any table at the start.
    Names are compared as property keys, so that a request without
    [customer_name] and a customer named ["undefined"] share one slot. *)
Theorem rateLimiter_retry_refused (c1 c2 : JS.value) (now1 now2 : Z)
    (hitTracker : gmap string (list Z)) :
  JS.ToPropertyKey c1 = JS.ToPropertyKey c2 →
  (now2 - now1 ≤ RateLimiter.retentionHorizon)%Z →
  (RateLimiter.rateLimiterMiddleware c1 now1 hitTracker).2 = Next →
  (RateLimiter.rateLimiterMiddleware c2 now2
     (RateLimiter.rateLimiterMiddleware c1 now1 hitTracker).1).2
  ∈ [GLOBAL_BURST_EXCEEDED; IDENTITY_COOLDOWN].
Proof.
  intros Hkey Hnow (Htable & _ & _)%rateLimiter_admitted_entry.
  assert ((RateLimiter.rateLimiterMiddleware c1 now1 hitTracker).1 !! JS.ToPropertyKey c2
          = Some [now1]) as Hentry.
  { rewrite Htable, Hkey. apply lookup_insert_eq. }
  destruct (rateLimiter_keeps_entry c2 now2 _ _ [now1] now1 Hentry) as [(hits' & Hk & _) _].
  { by apply list_elem_of_singleton. }
  { done. }
  revert Hk. rewrite rateLimiter_table.
  rewrite rateLimiterMiddleware_cases.
  destruct (decide (2 ≤ _)%nat); [intros; set_solver|].
  destruct (Tracker.sweepAll now2 _ _ !! JS.ToPropertyKey c2) eqn:E;
    [intros; set_solver|].
  destruct (JS.assoc _ JS.ObjectPrototype) as [p|].
  - destruct (JS.length_ge p 1); [intros; set_solver|].
    rewrite decide_False by done. congruence.
  - rewrite Htable in E. intros _. exfalso.
    rewrite lookup_sweepAll, Hkey, lookup_insert_eq in E. simpl in E.
    unfold Tracker.prune_entry, Tracker.prune in E.
    by rewrite filter_cons, decide_True in E.
Qed.

Lemma rateLimiter_retry_refused_witness :
  (RateLimiter.rateLimiterMiddleware (JS.JString "undefined") 2000
     (RateLimiter.rateLimiterMiddleware JS.JUndefined 0 ∅).1).2
  ∈ [GLOBAL_BURST_EXCEEDED; IDENTITY_COOLDOWN].
Proof.
  apply (rateLimiter_retry_refused JS.JUndefined (JS.JString "undefined") 0 2000 ∅).
  - reflexivity.
  - vm_compute. discriminate.
  - vm_compute. reflexivity.
Defined.

Section reference_lemmas.
Import JS Tracker RateLimiter Serve.
Implicit Types (hitTracker : gmap string (list Z)) (last : gmap string Z).

Lemma related_sweep T hitTracker last now k :
  related T hitTracker last → (T ≤ now)%Z →
  sweepAll now retentionHorizon hitTracker !! k
  = last !! k ≫= (λ t, if decide (now - t ≤ retentionHorizon)%Z then Some [t] else None).
Proof.
  intros Hrel HT. specialize (Hrel k). rewrite lookup_sweepAll.
  destruct (last !! k) as [t|]; simpl.
  - destruct Hrel as [-> | [-> Hold]]; simpl.
    + unfold prune_entry, prune. rewrite filter_cons.
      destruct (decide (now - t ≤ retentionHorizon)%Z); by simpl.
    + rewrite decide_False; [done|lia].
  - by rewrite Hrel.
Qed.

Lemma related_swept T hitTracker last now :
  related T hitTracker last → (T ≤ now)%Z →
  related now (sweepAll now retentionHorizon hitTracker) last.
Proof.
  intros Hrel HT k. rewrite (related_sweep T _ last) by done.
  destruct (last !! k) as [t|]; simpl; [|done].
  case_decide; [by left|right]. split; [done|lia].
Qed.

Lemma related_insert T hitTracker last k :
  related T hitTracker last → related T (<[k := [T]]> hitTracker) (<[k := T]> last).
Proof.
  intros Hrel k'. destruct (decide (k' = k)) as [->|Hne].
  - rewrite !lookup_insert_eq. by left.
  - rewrite !lookup_insert_ne by done. apply Hrel.
Qed.

(** One call of the middleware against one step of the reference limiter. *)
Lemma related_step T hitTracker last customer_name now :
  related T hitTracker last → (T ≤ now)%Z →
  assoc (ToPropertyKey customer_name) ObjectPrototype = None →
  (rateLimiterMiddleware customer_name now hitTracker).2
  = (reference_step last customer_name now).2
  ∧ related now (rateLimiterMiddleware customer_name now hitTracker).1
      (reference_step last customer_name now).1.
Proof.
  intros Hrel HT Hproto.
  pose proof (related_swept T hitTracker last now Hrel HT) as Hswept.
  rewrite rateLimiterMiddleware_cases.
  rewrite decide_False.
  2:{ apply at_most_one_no_burst. intros k hits.
      rewrite (related_sweep T _ last) by done.
      destruct (last !! k) as [t|]; simpl; [|done].
      case_decide; [|done]. intros [= <-]. simpl. lia. }
  rewrite (related_sweep T _ last) by done. unfold reference_step.
  destruct (last !! ToPropertyKey customer_name) as [t|]; cbn [mbind option_bind].
  - destruct (decide (now - t ≤ retentionHorizon)%Z); [done|].
    rewrite Hproto. split; [done|]. by apply related_insert.
  - rewrite Hproto. split; [done|]. by apply related_insert.
Qed.

Lemma serve_related requests :
  ∀ T hitTracker last,
    related T hitTracker last →
    Forall (Z.le T) (requests.*2) → StronglySorted Z.le (requests.*2) →
    Forall (λ r, assoc (ToPropertyKey r.1) ObjectPrototype = None) requests →
    (serve requests hitTracker).2 = (reference_serve requests last).2.
Proof.
  induction requests as [|[c now] requests IH];
    intros T hitTracker last Hrel HT Hsorted Hproto; [done|].
  rewrite serve_cons. cbn [snd reference_serve].
  rewrite fmap_cons in HT, Hsorted. cbn [snd] in HT, Hsorted.
  apply Forall_cons in HT as [HT _].
  apply StronglySorted_inv in Hsorted as [Hsorted Hlater].
  apply Forall_cons in Hproto as [Hc Hproto]. cbn [fst] in Hc.
  destruct (related_step T hitTracker last c now Hrel HT Hc) as [-> Hrel'].
  f_equal. by apply (IH now).
Qed.

End reference_lemmas.

(** X6.  What the middleware computes.  From the empty table, when the
    clock does not go back between requests and no customer name is a
    property of [Object.prototype], the middleware answers every sequence of
    requests exactly as the reference limiter does: a request is admitted
    unless the last admitted request with the same property key is at most
    5 minutes old, in which case it is answered with the '1 hit per 2
    minutes' response. *)
Theorem serve_refines_reference (requests : list (JS.value * Z)) :
  StronglySorted Z.le (requests.*2) →
  Forall (λ r, JS.assoc (JS.ToPropertyKey r.1) JS.ObjectPrototype = None) requests →
  (Serve.serve requests ∅).2 = (Serve.reference_serve requests ∅).2.
Proof.
  intros Hsorted Hproto.
  destruct requests as [|[c now] requests]; [done|].
  apply (serve_related _ now); try done.
  rewrite fmap_cons in *. cbn [snd] in *.
  apply StronglySorted_inv in Hsorted as [_ Hlater].
  apply Forall_cons. split; [lia|done].
Qed.

Lemma serve_refines_reference_witness :
  (Serve.serve requestsABA ∅).2 = [Next; Next; IDENTITY_COOLDOWN; Next].
Proof.
  rewrite (serve_refines_reference requestsABA).
  - vm_compute. reflexivity.
  - simpl. repeat constructor; lia.
  - repeat constructor.
Defined.

(** ** Further properties of Policy B *)

Section clock_lemmas.
Import Clock.

Lemma getDay_shift_week (d : Date) (weeks : Z) :
  getDay {| timeValue := timeValue d + weeks * (7 * msPerDay); LocalTZA := LocalTZA d |}
  = getDay d.
Proof.
  unfold getDay, LocalTime, msPerDay. cbn [timeValue LocalTZA].
  replace (timeValue d + weeks * (7 * 86400000) + LocalTZA d)%Z
    with (timeValue d + LocalTZA d + (weeks * 7) * 86400000)%Z by lia.
  rewrite Z.div_add by lia.
  replace ((timeValue d + LocalTZA d) `div` 86400000 + weeks * 7 + 4)%Z
    with ((timeValue d + LocalTZA d) `div` 86400000 + 4 + weeks * 7)%Z by lia.
  apply Z_mod_plus_full.
Qed.

Lemma getHours_shift_week (d : Date) (weeks : Z) :
  getHours {| timeValue := timeValue d + weeks * (7 * msPerDay); LocalTZA := LocalTZA d |}
  = getHours d.
Proof.
  unfold getHours, LocalTime, msPerDay, msPerHour. cbn [timeValue LocalTZA].
  replace (timeValue d + weeks * (7 * 86400000) + LocalTZA d)%Z
    with (timeValue d + LocalTZA d + (weeks * 7 * 24) * 3600000)%Z by lia.
  rewrite Z.div_add by lia.
  replace ((timeValue d + LocalTZA d) `div` 3600000 + weeks * 7 * 24)%Z
    with ((timeValue d + LocalTZA d) `div` 3600000 + (weeks * 7) * 24)%Z by lia.
  apply Z_mod_plus_full.
Qed.

(** The hour of the day, read off the milliseconds elapsed since local
    midnight. *)
Lemma getHours_of_day (d : Date) :
  (LocalTime d `mod` msPerDay
   = LocalTime d `mod` msPerHour + msPerHour * getHours d)%Z.
Proof.
  unfold getHours, msPerDay, msPerHour.
  change 86400000%Z with (3600000 * 24)%Z.
  apply Z.rem_mul_r; lia.
Qed.

End clock_lemmas.

(** X9.  Policy B repeats week after week: moving the instant by any whole
    number of weeks, in a fixed time zone, does not change the answer. *)
Theorem timeRestriction_weekly (now : Clock.Date) (weeks : Z) :
  TimeRestriction.timeRestrictionMiddleware
    {| Clock.timeValue := Clock.timeValue now + weeks * (7 * Clock.msPerDay);
       Clock.LocalTZA := Clock.LocalTZA now |}
  = TimeRestriction.timeRestrictionMiddleware now.
Proof.
  unfold TimeRestriction.timeRestrictionMiddleware.
  by rewrite getDay_shift_week, getHours_shift_week.
Qed.

(** X10.  The 'Restricted time' answer is given exactly on the days other
    than Monday, from 08:00:00.000 to 11:59:59.999 local time: when the
    milliseconds elapsed since local midnight lie in
    [8 * msPerHour, 12 * msPerHour). *)
Theorem timeRestriction_hours_window (now : Clock.Date) :
  TimeRestriction.timeRestrictionMiddleware now = BLACKOUT_HOURS ↔
  Clock.getDay now ≠ 1%Z ∧
  (8 * Clock.msPerHour ≤ Clock.LocalTime now `mod` Clock.msPerDay < 12 * Clock.msPerHour)%Z.
Proof.
  unfold TimeRestriction.timeRestrictionMiddleware.
  rewrite getHours_of_day.
  assert (0 ≤ Clock.LocalTime now `mod` Clock.msPerHour < Clock.msPerHour)%Z as Hr
    by (apply Z.mod_pos_bound; unfold Clock.msPerHour; lia).
  unfold Clock.msPerHour in *.
  destruct (decide (Clock.getDay now = 1%Z)) as [Hd|Hd]; [split; [done|tauto]|].
  destruct (decide _) as [Hh|Hh].
  - split; [|done]. intros _. split; [done|]. lia.
  - split; [done|]. intros [_ Hw]. destruct Hh. lia.
Qed.

(** ** Properties of [calculateAge] and of the age check *)

(** X11.  [calculateAge] counts the anniversaries reached: for a valid date
    of birth it returns the number [age] such that the [n]-th anniversary of
    the birth falls on or before today exactly when [n ≤ age].  (A birthday
    counts from the day itself; a date of birth after today gives a
    negative age.) *)
Theorem calculateAge_counts_anniversaries (today birthDate : Age.CalendarDate) :
  ∃ age, Age.calculateAge today (Some birthDate) = Some age ∧
         ∀ n, Age.before_or_on (Age.anniversary n birthDate) today ↔ (n ≤ age)%Z.
Proof.
  unfold Age.calculateAge, Age.before_or_on, Age.anniversary. simpl.
  case_decide as Hd; eexists; (split; [done|]); intros n; lia.
Qed.

(** X12.  The age check of [/db-save] lets a request through exactly when
    the date of birth is an Invalid Date (the age is then [NaN], and
    [NaN <= 15] is false) or the 16th anniversary of the birth is today or
    earlier; otherwise the answer is 400. *)
Theorem ageCheck_passes (today : Age.CalendarDate) (birthDate : option Age.CalendarDate) :
  (Age.ageCheck today birthDate = None ↔
   birthDate = None ∨
   ∃ b, birthDate = Some b ∧ Age.before_or_on (Age.anniversary 16 b) today)
  ∧ (Age.ageCheck today birthDate = None
     ∨ Age.ageCheck today birthDate = Some (Json 400 "Age must be greater than 15.")).
Proof.
  unfold Age.ageCheck. destruct birthDate as [b|]; [|split; [split; auto|auto]].
  unfold Age.calculateAge, Age.before_or_on, Age.anniversary. simpl.
  split.
  - split.
    + intros Hpass. right. exists b. split; [done|].
      repeat case_decide; try done; lia.
    + intros [|[b' [[= <-] Hb]]]; [done|].
      repeat case_decide; try done; lia.
  - repeat case_decide; auto.
Qed.

(** X13.  Ages only grow with time: if [today1] is on or before [today2],
    the age computed on [today1] is at most the age computed on [today2]. *)
Theorem calculateAge_monotone (today1 today2 birthDate : Age.CalendarDate) (age1 age2 : Z) :
  Age.before_or_on today1 today2 →
  Age.calculateAge today1 (Some birthDate) = Some age1 →
  Age.calculateAge today2 (Some birthDate) = Some age2 →
  (age1 ≤ age2)%Z.
Proof.
  unfold Age.calculateAge, Age.before_or_on.
  intros Hle H1 H2. repeat case_decide; simplify_eq; lia.
Qed.

Lemma calculateAge_monotone_witness : (15 ≤ 16)%Z.
Proof.
  apply (calculateAge_monotone
           {| Age.getFullYear := 2024; Age.getMonth := 4; Age.getDate := 31 |}
           june1_2024 june1_2008 15 16).
  - vm_compute. right. split; [reflexivity|]. left. reflexivity.
  - vm_compute. reflexivity.
  - vm_compute. reflexivity.
Defined.

(** ** Properties of the [/db-save] route *)

Section route_lemmas.
Import JS Tracker RateLimiter Age Routes.
Context {signature : Type} `{EqDecision signature}.
Variable mac : string → Tokens.claims → signature.
Variable ACCESS_TOKEN_SECRET : string.

Abbreviation authenticate := (Tokens.authenticate mac ACCESS_TOKEN_SECRET).
Abbreviation dbSave := (Routes.dbSave mac ACCESS_TOKEN_SECRET).

Lemma authenticate_cases bearer jwtNow :
  (authenticate bearer jwtNow).1 = Next
  ∨ (authenticate bearer jwtNow).1 = Json 401 "Unauthorized"
  ∨ (authenticate bearer jwtNow).1 = Json 403 "Forbidden".
Proof.
  unfold Tokens.authenticate. destruct bearer as [t|]; [|auto].
  destruct (Tokens.jwt_verify _ _ _ _); auto.
Qed.

(** The only exception that leaves the rate limiter. *)
Lemma rateLimiter_throw customer_name now hitTracker error :
  (rateLimiterMiddleware customer_name now hitTracker).2 = Throw error →
  error = "TypeError: hitTracker[customer_name].push is not a function".
Proof.
  rewrite rateLimiterMiddleware_cases.
  destruct (decide _); [done|]. destruct (_ !! _); [done|].
  destruct (assoc _ ObjectPrototype) as [p|]; [|done].
  destruct (length_ge p 1); [done|]. by intros [= <-].
Qed.


End route_lemmas.

(** X14.  A request to [/db-save] that [authenticate] refuses is answered
    401 or 403 and leaves the hit table exactly as it was: it is neither
    swept nor charged with a hit. *)
Theorem dbSave_unauthenticated_leaves_table {signature : Type} `{EqDecision signature}
    (mac : string → Tokens.claims → signature) (ACCESS_TOKEN_SECRET : string)
    (bearer : option (Tokens.token signature)) (jwtNow : Z)
    (customer_name : JS.value) (now : Z)
    (today : Age.CalendarDate) (birthDate : option Age.CalendarDate)
    (hitTracker : gmap string (list Z)) :
  (Tokens.authenticate mac ACCESS_TOKEN_SECRET bearer jwtNow).1 ≠ Next →
  (Routes.dbSave mac ACCESS_TOKEN_SECRET bearer jwtNow customer_name now
     today birthDate hitTracker).1 = hitTracker
  ∧ (Routes.dbSave mac ACCESS_TOKEN_SECRET bearer jwtNow customer_name now
       today birthDate hitTracker).2
    ∈ [Routes.Responded 401 "Unauthorized"; Routes.Responded 403 "Forbidden"].
Proof.
  intros Hrefused. unfold Routes.dbSave.
  destruct (authenticate_cases mac ACCESS_TOKEN_SECRET bearer jwtNow) as [Ha|[Ha|Ha]];
    [done| |];
    destruct (Tokens.authenticate mac ACCESS_TOKEN_SECRET bearer jwtNow) as [o user];
    cbn [fst] in Ha; subst o; cbn [fst snd Routes.respond]; split; try done.
  - apply list_elem_of_here.
  - apply list_elem_of_further, list_elem_of_here.
Qed.


(** X16.  When the rate limiter throws on a request to [/db-save], the
    error middleware answers 500 'Internal Server Error' (its two 429
    branches are not taken), and the table is the swept one. *)
Theorem dbSave_throw_is_500 {signature : Type} `{EqDecision signature}
    (mac : string → Tokens.claims → signature) (ACCESS_TOKEN_SECRET : string)
    (bearer : option (Tokens.token signature)) (jwtNow : Z)
    (customer_name : JS.value) (now : Z)
    (today : Age.CalendarDate) (birthDate : option Age.CalendarDate)
    (hitTracker : gmap string (list Z)) (error : string) :
  (Tokens.authenticate mac ACCESS_TOKEN_SECRET bearer jwtNow).1 = Next →
  (RateLimiter.rateLimiterMiddleware customer_name now hitTracker).2 = Throw error →
  Routes.dbSave mac ACCESS_TOKEN_SECRET bearer jwtNow customer_name now
    today birthDate hitTracker
  = (Tracker.sweepAll now RateLimiter.retentionHorizon hitTracker,
     Routes.Responded 500 "Internal Server Error").
Proof.
  intros Ha Hthrow. unfold Routes.dbSave.
  destruct (Tokens.authenticate mac ACCESS_TOKEN_SECRET bearer jwtNow) as [o user].
  cbn [fst] in Ha. subst o.
  pose proof (rateLimiter_table customer_name now hitTracker) as Htable.
  rewrite Hthrow in Htable. rewrite decide_False in Htable by done.
  pose proof (rateLimiter_throw _ _ _ _ Hthrow) as ->.
  destruct (RateLimiter.rateLimiterMiddleware customer_name now hitTracker) as [table o].
  cbn [fst snd] in *. by subst.
Qed.

Lemma dbSave_unauthenticated_leaves_table_witness :
  (Routes.dbSave pairMac "access-secret" None 1010 (JS.JString "A") 5000
     june1_2024 (Some june1_2008) tableAB).1 = tableAB.
Proof.
  apply (dbSave_unauthenticated_leaves_table pairMac "access-secret" None 1010
           (JS.JString "A") 5000 june1_2024 (Some june1_2008) tableAB).
  vm_compute. discriminate.
Defined.


Lemma dbSave_throw_is_500_witness :
  Routes.dbSave pairMac "access-secret" bearerUser1 1010 (JS.JString "toString") 0
    june1_2024 (Some june1_2008) ∅
  = (Tracker.sweepAll 0 RateLimiter.retentionHorizon ∅,
     Routes.Responded 500 "Internal Server Error").
Proof.
  apply (dbSave_throw_is_500 pairMac "access-secret" bearerUser1 1010
           (JS.JString "toString") 0 june1_2024 (Some june1_2008) ∅
           "TypeError: hitTracker[customer_name].push is not a function").
  - vm_compute. reflexivity.
  - vm_compute. reflexivity.
Defined.

(** ** Properties of the bearer token extraction *)

Section bearer_lemmas.
Import Bearer.

Lemma split_free sep s : free_of sep s → split sep s = [s].
Proof.
  induction s as [|c s IH]; [done|]. intros [Hc Hs]. cbn [split].
  destruct (decide (c = sep)); [done|]. by rewrite IH.
Qed.

Lemma split_app_free sep s1 s2 :
  free_of sep s1 →
  split sep (s1 ++ String sep s2) = s1 :: split sep s2.
Proof.
  induction s1 as [|c s1 IH]; intros Hfree.
  - change ("" +:+ String sep s2) with (String sep s2). cbn [split].
    by destruct (decide (sep = sep)).
  - destruct Hfree as [Hc Hs].
    change (String c s1 +:+ String sep s2) with (String c (s1 +:+ String sep s2)).
    cbn [split].
    destruct (decide (c = sep)); [done|]. by rewrite IH.
Qed.

End bearer_lemmas.

(** X17.  The scheme word of the [Authorization] header is not looked at:
    for any first word and any non-empty second word, both without spaces,
    the second word is the token handed to [jwt.verify], whether the header
    ends there or goes on after another space. *)
Theorem bearerOf_ignores_scheme (scheme token rest : string) :
  Bearer.free_of " " scheme → Bearer.free_of " " token → token ≠ "" →
  Bearer.bearerOf (Some (scheme ++ String " " token)) = inr token
  ∧ Bearer.bearerOf (Some (scheme ++ String " " (token ++ String " " rest))) = inr token.
Proof.
  intros Hscheme Htoken Hne. unfold Bearer.bearerOf, Bearer.headerToken.
  rewrite !split_app_free by done.
  rewrite split_free by done. cbn [lookup list_lookup].
  split; by destruct token.
Qed.

Lemma bearerOf_ignores_scheme_witness :
  Bearer.bearerOf (Some "Bearer abc.def.ghi") = inr "abc.def.ghi"
  ∧ Bearer.bearerOf (Some "Basic abc.def.ghi and more") = inr "abc.def.ghi".
Proof.
  split.
  - apply (bearerOf_ignores_scheme "Bearer" "abc.def.ghi" "");
      [vm_compute; repeat split; discriminate
      |vm_compute; repeat split; discriminate|discriminate].
  - apply (bearerOf_ignores_scheme "Basic" "abc.def.ghi" "and more");
      [vm_compute; repeat split; discriminate
      |vm_compute; repeat split; discriminate|discriminate].
Defined.

(** X18.  A request without [Authorization] header, with a header that has
    no space, or with a header whose first space is followed at once by
    another space (or by nothing) is answered 401 and [jwt.verify] is not
    called. *)
Theorem bearerOf_missing_token (scheme rest : string) :
  Bearer.free_of " " scheme →
  Bearer.bearerOf None = inl (Json 401 "Unauthorized")
  ∧ Bearer.bearerOf (Some scheme) = inl (Json 401 "Unauthorized")
  ∧ Bearer.bearerOf (Some (scheme ++ " ")) = inl (Json 401 "Unauthorized")
  ∧ Bearer.bearerOf (Some (scheme ++ String " " (String " " rest)))
    = inl (Json 401 "Unauthorized").
Proof.
  intros Hscheme. unfold Bearer.bearerOf, Bearer.headerToken.
  split; [done|]. split; [by rewrite split_free|].
  split.
  - by rewrite (split_app_free " " scheme "").
  - rewrite split_app_free by done. cbn [split].
    by destruct (decide (" "%char = " "%char)).
Qed.

Lemma bearerOf_missing_token_witness :
  Bearer.bearerOf (Some "Bearer  abc.def.ghi") = inl (Json 401 "Unauthorized").
Proof.
  apply (bearerOf_missing_token "Bearer" "abc.def.ghi").
  vm_compute. repeat split; discriminate.
Defined.

(** ** Further properties of the credentials *)

(** X19.  The access token that [generateTokens] issues at [t0] opens
    [authenticate] for 30 minutes: before [t0 + 1800] seconds the request
    goes on with [req.user.userId] set to the subject, and after
    [t0 + 1800] seconds it is answered 403. *)
Theorem authenticate_accepts_for_thirty_minutes {signature : Type} `{EqDecision signature}
    (mac : string → Tokens.claims → signature)
    (ACCESS_TOKEN_SECRET REFRESH_TOKEN_SECRET : string) (subject : string) (t0 now : Z) :
  let pair := Tokens.generateTokens mac ACCESS_TOKEN_SECRET REFRESH_TOKEN_SECRET subject t0 in
  ((now < t0 + 30 * 60)%Z →
   Tokens.authenticate mac ACCESS_TOKEN_SECRET (Some (Tokens.accessToken pair)) now
   = (Next, Some {| Tokens.userId := subject; Tokens.issuedAt := t0;
                    Tokens.expiresAt := t0 + 30 * 60 |}))
  ∧ ((t0 + 30 * 60 < now)%Z →
     Tokens.authenticate mac ACCESS_TOKEN_SECRET (Some (Tokens.accessToken pair)) now
     = (Json 403 "Forbidden", None)).
Proof.
  intros pair. subst pair.
  unfold Tokens.authenticate, Tokens.generateTokens, Tokens.jwt_verify, Tokens.jwt_sign.
  cbn [Tokens.accessToken Tokens.payload Tokens.sig Tokens.expiresAt Tokens.ttl].
  split; intros Hnow.
  - rewrite decide_True by done. by rewrite decide_False by lia.
  - rewrite decide_True by done. by rewrite decide_True by lia.
Qed.

Lemma authenticate_accepts_for_thirty_minutes_witness :
  Tokens.authenticate pairMac "access-secret" bearerUser1 2799
  = (Next, Some {| Tokens.userId := "user-1"; Tokens.issuedAt := 1000;
                   Tokens.expiresAt := 1000 + 30 * 60 |})
  ∧ Tokens.authenticate pairMac "access-secret" bearerUser1 2801
    = (Json 403 "Forbidden", None).
Proof.
  split.
  - apply (proj1 (authenticate_accepts_for_thirty_minutes pairMac
                    "access-secret" "refresh-secret" "user-1" 1000 2799)).
    vm_compute. reflexivity.
  - apply (proj2 (authenticate_accepts_for_thirty_minutes pairMac
                    "access-secret" "refresh-secret" "user-1" 1000 2801)).
    vm_compute. reflexivity.
Defined.

Section rotation_lemmas.
Import Tokens Rotation.
Context {signature : Type} `{EqDecision signature}.
Variable mac : string → claims → signature.
Variables ACCESS_TOKEN_SECRET REFRESH_TOKEN_SECRET : string.

Lemma authRefresh_own_token subject t0 now :
  (now ≤ t0 + ttl Refresh)%Z →
  authRefresh mac ACCESS_TOKEN_SECRET REFRESH_TOKEN_SECRET
    (Some (refreshToken
             (generateTokens mac ACCESS_TOKEN_SECRET REFRESH_TOKEN_SECRET subject t0))) now
  = inr (generateTokens mac ACCESS_TOKEN_SECRET REFRESH_TOKEN_SECRET subject now).
Proof.
  intros Hnow. unfold authRefresh, generateTokens at 1, jwt_verify, jwt_sign.
  cbn [refreshToken payload sig expiresAt userId].
  rewrite decide_True by done. by rewrite decide_False by lia.
Qed.

End rotation_lemmas.

(** X20.  Sessions can be prolonged without end: a client that refreshes
    again and again, each time within a refresh lifetime of its previous
    refresh and with the refresh token it received then, is never refused,
    and holds in the end the pair issued to the same subject at its last
    refresh. *)
Theorem refreshAll_keeps_subject {signature : Type} `{EqDecision signature}
    (mac : string → Tokens.claims → signature)
    (ACCESS_TOKEN_SECRET REFRESH_TOKEN_SECRET : string)
    (subject : string) (t0 : Z) (instants : list Z) :
  Rotation.in_time t0 instants →
  Rotation.refreshAll mac ACCESS_TOKEN_SECRET REFRESH_TOKEN_SECRET instants
    (Tokens.generateTokens mac ACCESS_TOKEN_SECRET REFRESH_TOKEN_SECRET subject t0)
  = Some (Tokens.generateTokens mac ACCESS_TOKEN_SECRET REFRESH_TOKEN_SECRET subject
            (default t0 (last instants))).
Proof.
  revert t0. induction instants as [|now instants IH]; intros t0 Htime; [done|].
  destruct Htime as [Hnow Htime]. cbn [Rotation.refreshAll].
  rewrite authRefresh_own_token by lia. rewrite IH by done.
  rewrite last_cons. by destruct (last instants).
Qed.

Lemma refreshAll_keeps_subject_witness :
  Rotation.refreshAll pairMac "access-secret" "refresh-secret"
    [20000000%Z; 50000000%Z; 80000000%Z]
    (Tokens.generateTokens pairMac "access-secret" "refresh-secret" "user-1" 1000)
  = Some (Tokens.generateTokens pairMac "access-secret" "refresh-secret" "user-1" 80000000).
Proof.
  apply (refreshAll_keeps_subject pairMac "access-secret" "refresh-secret" "user-1" 1000
           [20000000%Z; 50000000%Z; 80000000%Z]).
  vm_compute. repeat split; discriminate.
Defined.
